(** * melgui: a shallow embedding of the declaration parser, the Gui
      container and the callback notifier

    Sources embedded here:
    - [interface/gui.py]  ([Control], [Gui], [Gui.from_string] and its
      local helpers [strip_comments], [parse_line], [ControlStack]);
    - [state.py]          ([CallbackNotifier]).

    Python [str] values are 8-bit strings and are modelled by [string];
    Python integers by [Z]; dictionaries by [gmap]; raised exceptions by
    the [Raise] constructor of [result]. *)

From Stdlib Require Import ZArith Ascii.
From stdpp Require Import base tactics option list gmap strings.

Local Open Scope Z_scope.

(** ** Exceptions and results *)

Inductive exn : Type :=
  | TypeError (msg : string)
  | KeyError (key : string)
  | IndexError
  | AssertionError
  | NameError.

Inductive result (A : Type) : Type :=
  | Ok (a : A)
  | Raise (e : exn).
Arguments Ok {A} a.
Arguments Raise {A} e.

(** Sequencing: an exception raised by the first computation ends the
    whole one.  This gives the [x ← m; k] notation of stdpp. *)
Global Instance result_ret : MRet result := λ A a, Ok a.
Global Instance result_bind : MBind result := λ A B f m,
  match m with
  | Ok a => f a
  | Raise e => Raise e
  end.

Global Instance result_fmap : FMap result := λ A B f m,
  match m with
  | Ok a => Ok (f a)
  | Raise e => Raise e
  end.

(** ** The Python string primitives the sources rely on *)

Module Py.

Definition chr (n : nat) : ascii := ascii_of_nat n.

Definition TAB : ascii := chr 9.
Definition LF : ascii := chr 10.
Definition VT : ascii := chr 11.
Definition FF : ascii := chr 12.
Definition CR : ascii := chr 13.
Definition SPACE : ascii := chr 32.
Definition DQUOTE : ascii := chr 34.
Definition HASH : ascii := chr 35.
Definition SQUOTE : ascii := chr 39.
Definition COLON : ascii := chr 58.

(** One-character string. *)
Definition str1 (c : ascii) : string := String c EmptyString.

(** [len(s)] *)
Definition len (s : string) : Z := Z.of_nat (String.length s).

(** Membership of a character in a list of characters ([c in chars]). *)
Definition char_in (c : ascii) (chars : list ascii) : bool :=
  existsb (Ascii.eqb c) chars.

(** The characters [str.strip()] and [str.split()] treat as blank. *)
Definition isspace (c : ascii) : bool :=
  char_in c [SPACE; TAB; LF; CR; VT; FF].

(** [s.lstrip()], [s.rstrip()], [s.strip()] *)
Fixpoint lstrip (s : string) : string :=
  match s with
  | EmptyString => EmptyString
  | String c s' => if isspace c then lstrip s' else s
  end.

Fixpoint rstrip (s : string) : string :=
  match s with
  | EmptyString => EmptyString
  | String c s' =>
      match rstrip s' with
      | EmptyString => if isspace c then EmptyString else str1 c
      | r => String c r
      end
  end.

Definition strip (s : string) : string := rstrip (lstrip s).

(** Truth value of a string: non-empty. *)
Definition truthy (s : string) : bool :=
  match s with EmptyString => false | String _ _ => true end.

(** [s.split()]: the maximal runs of non-blank characters. *)
Fixpoint split (s : string) : list string :=
  match s with
  | EmptyString => []
  | String c s' =>
      if isspace c then split s'
      else match s' with
           | EmptyString => [str1 c]
           | String c' _ =>
               if isspace c' then str1 c :: split s'
               else match split s' with
                    | t :: ts => String c t :: ts
                    | [] => [str1 c]
                    end
           end
  end.

(** [sep.join(parts)] *)
Fixpoint join (sep : string) (parts : list string) : string :=
  match parts with
  | [] => EmptyString
  | [p] => p
  | p :: ps => p +:+ sep +:+ join sep ps
  end.

(** [s.find(c)] for a one-character needle: the first index, or -1. *)
Fixpoint find (c : ascii) (s : string) : Z :=
  match s with
  | EmptyString => -1
  | String c' s' =>
      if Ascii.eqb c' c then 0
      else let i := find c s' in if i <? 0 then -1 else i + 1
  end.

Fixpoint take (n : nat) (s : string) : string :=
  match n, s with
  | S n', String c s' => String c (take n' s')
  | _, _ => EmptyString
  end.

Fixpoint drop (n : nat) (s : string) : string :=
  match n, s with
  | S n', String _ s' => drop n' s'
  | _, _ => s
  end.

(** A slice bound is taken from the end when negative and clamped to
    the string. *)
Definition slice_index (i : Z) (s : string) : nat :=
  let i' := if i <? 0 then i + len s else i in
  Z.to_nat (Z.max 0 (Z.min i' (len s))).

(** [s[:i]] and [s[i:]] *)
Definition slice_to (s : string) (i : Z) : string := take (slice_index i s) s.
Definition slice_from (s : string) (i : Z) : string := drop (slice_index i s) s.

(** [s.startswith(p)] *)
Fixpoint startswith (p s : string) : bool :=
  match p, s with
  | EmptyString, _ => true
  | String a p', String b s' => Ascii.eqb a b && startswith p' s'
  | String _ _, EmptyString => false
  end.

(** [p in s] for strings. *)
Fixpoint contains (p s : string) : bool :=
  startswith p s ||
  match s with
  | EmptyString => false
  | String _ s' => contains p s'
  end.

(** [s.replace(old, new)]: every non-overlapping occurrence, scanning
    from the left.  [skip] counts the characters of an occurrence
    already replaced that are still to be passed over. *)
Fixpoint replace_go (old new : string) (skip : nat) (s : string) : string :=
  match s with
  | EmptyString => EmptyString
  | String c s' =>
      match skip with
      | S n => replace_go old new n s'
      | O =>
          if startswith old s
          then new +:+ replace_go old new (Nat.pred (String.length old)) s'
          else String c (replace_go old new O s')
      end
  end.

Fixpoint intersperse (new : string) (s : string) : string :=
  match s with
  | EmptyString => new
  | String c s' => new +:+ String c (intersperse new s')
  end.

Definition replace (old new s : string) : string :=
  match old with
  | EmptyString => intersperse new s
  | String _ _ => replace_go old new O s
  end.

(** [s.lower()] over the ASCII letters. *)
Definition lower_char (c : ascii) : ascii :=
  let n := nat_of_ascii c in
  if (Nat.leb 65 n && Nat.leb n 90)%bool then ascii_of_nat (n + 32) else c.

Fixpoint lower (s : string) : string :=
  match s with
  | EmptyString => EmptyString
  | String c s' => String (lower_char c) (lower s')
  end.

(** [s.splitlines()]: lines end at LF, CR or CR LF; the terminators are
    dropped and a final terminator opens no further line.  [cur] is the
    line read so far, last character first. *)
Fixpoint splitlines_go (cur : string) (s : string) : list string :=
  match s with
  | EmptyString =>
      match cur with
      | EmptyString => []
      | _ => [String.rev cur]
      end
  | String c s' =>
      if Ascii.eqb c LF then String.rev cur :: splitlines_go EmptyString s'
      else if Ascii.eqb c CR then
        match s' with
        | String c' s'' =>
            if Ascii.eqb c' LF
            then String.rev cur :: splitlines_go EmptyString s''
            else String.rev cur :: splitlines_go EmptyString s'
        | EmptyString => [String.rev cur]
        end
      else splitlines_go (String c cur) s'
  end.

Definition splitlines (s : string) : list string :=
  splitlines_go EmptyString s.

End Py.

(** ** The fragment of [re] used by [gui.py]

    A backtracking matcher in continuation-passing style: alternatives are
    tried in the order Python's [re] tries them (greedy operators first
    take as much as they can and give characters back one at a time), and
    the first overall success is the match. *)

Module Re.

Inductive regex : Type :=
  | Lit (c : ascii)                 (* a literal character *)
  | Cat (r1 r2 : regex)             (* r1 r2 *)
  | Opt (r : regex)                 (* r?  (greedy) *)
  | Star (cls : ascii → bool)       (* [cls]*  (greedy) *)
  | Plus (cls : ascii → bool)       (* [cls]+  (greedy) *)
  | Group (r : regex)               (* ( r ), the capturing group 1 *)
  | Eps.                            (* the empty regex *)

(** The literal text [s] as a regex. *)
Fixpoint lits (s : string) : regex :=
  match s with
  | EmptyString => Eps
  | String c s' => Cat (Lit c) (lits s')
  end.

(** The text consumed between the suffix [s] and its own suffix [s']. *)
Definition consumed (s s' : string) : string :=
  Py.take (String.length s - String.length s')%nat s.

Section matcher.
Context {R : Type}.

(** Greedy [cls*]: take every character of the class, and on failure of
    the continuation give them back from the right. *)
Fixpoint star (cls : ascii → bool) (s : string)
    (k : string → option R) : option R :=
  match s with
  | String c s' =>
      if cls c then
        match star cls s' k with
        | Some x => Some x
        | None => k s
        end
      else k s
  | EmptyString => k s
  end.

Definition plus (cls : ascii → bool) (s : string)
    (k : string → option R) : option R :=
  match s with
  | String c s' => if cls c then star cls s' k else None
  | EmptyString => None
  end.

(** [rmatch r s g k]: match [r] at the start of [s], with [g] the text
    captured so far by group 1, and continue with [k] on what is
    left. *)
Fixpoint rmatch (r : regex) (s : string) (g : option string)
    (k : string → option string → option R) : option R :=
  match r with
  | Lit c =>
      match s with
      | String c' s' => if Ascii.eqb c c' then k s' g else None
      | EmptyString => None
      end
  | Cat r1 r2 => rmatch r1 s g (λ s' g', rmatch r2 s' g' k)
  | Opt r' =>
      match rmatch r' s g k with
      | Some x => Some x
      | None => k s g
      end
  | Star cls => star cls s (λ s', k s' g)
  | Plus cls => plus cls s (λ s', k s' g)
  | Group r' => rmatch r' s g (λ s' _, k s' (Some (consumed s s')))
  | Eps => k s g
  end.
End matcher.

(** A match object: where the match starts, [group(0)] and [group(1)]. *)
Record match_object : Type := MatchObject {
  start : nat;
  group0 : string;
  group1 : option string
}.

(** [re.match(r, s)] started at offset [i] of the subject, [s] being the
    subject from that offset on. *)
Definition match_at (r : regex) (i : nat) (s : string) : option match_object :=
  rmatch r s None (λ s' g, Some (MatchObject i (consumed s s') g)).

Definition match_ (r : regex) (s : string) : option match_object :=
  match_at r 0 s.

(** [re.search(r, s)]: the match at the leftmost offset that has one. *)
Fixpoint search_from (r : regex) (i : nat) (s : string) : option match_object :=
  match match_at r i s with
  | Some m => Some m
  | None =>
      match s with
      | EmptyString => None
      | String _ s' => search_from r (S i) s'
      end
  end.

Definition search (r : regex) (s : string) : option match_object :=
  search_from r 0 s.

(** The class [[A-Za-z0-9_]]. *)
Definition word_char (c : ascii) : bool :=
  let n := nat_of_ascii c in
  (Nat.leb 65 n && Nat.leb n 90) || (Nat.leb 97 n && Nat.leb n 122)
  || (Nat.leb 48 n && Nat.leb n 57) || Nat.eqb n 95.

(** The class [[ \t]]. *)
Definition blank_char (c : ascii) : bool :=
  Ascii.eqb c Py.SPACE || Ascii.eqb c Py.TAB.

End Re.

(** ** interface/gui.py *)

Module gui.

(** *** class Control *)

Record Control : Type := mkControl {
  name : string;
  control_type : string;
  creation_flags : string;
  parent_name : option string
}.

(** [r' -p(?:arent)? "?([A-Za-z0-9_]+)"? ?'] *)
Definition parent_name_pattern : Re.regex :=
  Re.Cat (Re.lits " -p")
    (Re.Cat (Re.Opt (Re.lits "arent"))
       (Re.Cat (Re.Lit Py.SPACE)
          (Re.Cat (Re.Opt (Re.Lit Py.DQUOTE))
             (Re.Cat (Re.Group (Re.Plus Re.word_char))
                (Re.Cat (Re.Opt (Re.Lit Py.DQUOTE))
                   (Re.Opt (Re.Lit Py.SPACE))))))).

(** [command_tokens[0]] *)
Definition first_token (command_tokens : list string) : result string :=
  match command_tokens with
  | [] => Raise IndexError
  | t :: _ => Ok t
  end.

(** [Control.from_string(name, command, parent_name)] *)
Definition Control_from_string (name command : string)
    (parent_name : option string) : result Control :=
  let parent_name_regex := Re.search parent_name_pattern command in
  let '(parent_name, command) :=
    match parent_name_regex with
    | Some m => (Re.group1 m, Py.replace (Re.group0 m) " " command)
    | None => (parent_name, command)
    end in
  let command_tokens := Py.split command in
  control_type ← first_token command_tokens;
  let creation_flags := Py.join " " (tail command_tokens) in
  Ok (mkControl name control_type creation_flags parent_name).

(** *** Gui.from_string: strip_comments *)

(** The two local variables of [strip_comments] that the scan reads. *)
Record scan_state : Type := mkScan {
  quote_open : bool;
  quote_chars : list ascii
}.

(** [open_quote] and [close_quote] are nested functions that assign to
    [quote_open] and [quote_chars].  In Python 2 an assignment inside a
    nested function binds a new local variable of that function: the
    two values are computed, bound locally and dropped when the call
    returns, and the variables of [strip_comments] keep their values. *)
Definition open_quote (quote_char : ascii) (enclosing : scan_state) : scan_state :=
  let quote_open := true in
  let quote_chars := [quote_char] in
  enclosing.

Definition close_quote (enclosing : scan_state) : scan_state :=
  let quote_open := false in
  let quote_chars := [Py.DQUOTE; Py.SQUOTE] in
  enclosing.

(** The [for i, c in enumerate(line)] loop: [done] is [line[:i]], last
    character first, and [rest] is [line[i:]]. *)
Fixpoint strip_comments_loop (st : scan_state) (done rest : string) : string :=
  match rest with
  | EmptyString => String.rev done
  | String c rest' =>
      if Ascii.eqb c Py.HASH && negb (quote_open st) then String.rev done
      else if Py.char_in c (quote_chars st) then
        let st' := if quote_open st then close_quote st else open_quote c st in
        strip_comments_loop st' (String c done) rest'
      else strip_comments_loop st (String c done) rest'
  end.

Definition strip_comments (line : string) : string :=
  strip_comments_loop (mkScan false [Py.DQUOTE; Py.SQUOTE]) EmptyString line.

(** *** Gui.from_string: parse_line *)

Definition get_indentation_level (line : string) : Z :=
  match Re.match_ (Re.Star Re.blank_char) line with
  | None => 0
  | Some m => Py.len (Py.replace (Py.str1 Py.TAB) "    " (Re.group0 m))
  end.

Definition split_control (line : string) : string * string :=
  let first_colon_index := Py.find Py.COLON line in
  (Py.strip (Py.slice_to line first_colon_index),
   Py.strip (Py.slice_from line (first_colon_index + 1))).

Definition parse_line (lines : list string) : list (Z * string * string) :=
  (λ line,
     let indentation_level := get_indentation_level line in
     let '(name, command) := split_control line in
     (indentation_level, name, command)) <$> lines.

(** *** Gui.from_string: class ControlStack

    [_controls] is kept with the top of the stack (the last element of
    the Python list) at the head. *)
Module ControlStack.

Record t : Type := mk {
  _controls : list (Z * option string)
}.

Definition init : t := mk [(-1, None)].

(** The [while] loop of [pop]; reading [self._controls[-1]] of an
    empty list raises IndexError. *)
Fixpoint pop_loop (indentation_level : Z) (cs : list (Z * option string))
    : result (list (Z * option string)) :=
  match cs with
  | [] => Raise IndexError
  | (depth, _) :: below =>
      if depth >=? indentation_level then pop_loop indentation_level below
      else Ok cs
  end.

Definition pop (indentation_level : Z) (self : t) : result t :=
  cs ← pop_loop indentation_level (_controls self);
  Ok (mk cs).

Definition push (indentation_level : Z) (control_name : string)
    (self : t) : result t :=
  match _controls self with
  | [] => Raise IndexError
  | (depth, _) :: _ =>
      if indentation_level >? depth
      then Ok (mk ((indentation_level, Some control_name) :: _controls self))
      else Raise AssertionError
  end.

Definition top_control (self : t) : result (option string) :=
  match _controls self with
  | [] => Raise IndexError
  | (_, control_name) :: _ => Ok control_name
  end.

End ControlStack.

(** *** Gui.from_string: the main loop *)

Fixpoint collect_controls (triples : list (Z * string * string))
    (controls : list Control) (control_stack : ControlStack.t)
    : result (list Control) :=
  match triples with
  | [] => Ok controls
  | (indentation_level, control_name, control_command) :: triples' =>
      control_stack ← ControlStack.pop indentation_level control_stack;
      parent ← ControlStack.top_control control_stack;
      control ← Control_from_string control_name control_command parent;
      control_stack ← ControlStack.push indentation_level control_name control_stack;
      collect_controls triples' (controls ++ [control]) control_stack
  end.

Definition meaningful_lines (s : string) : list string :=
  let commentless_lines := strip_comments <$> Py.splitlines s in
  List.filter (λ line, Py.truthy (Py.strip line)) commentless_lines.

(** Everything of [Gui.from_string] before the final [cls(controls)]. *)
Definition parse_controls (s : string) : result (list Control) :=
  collect_controls (parse_line (meaningful_lines s)) [] ControlStack.init.

(** *** class Gui

    A Gui holds references to Control objects.  [ref] is the type of
    object references, equal exactly when they designate the same
    object, and [name_of] reads the attribute [name] of the control a
    reference designates. *)
Module Gui.
Section with_references.
Context {ref : Type} (name_of : ref → string).

Record t : Type := mk {
  _controls : list ref;
  _control_lookup : gmap string ref
}.

Definition add (self : t) (control : ref) : t :=
  mk (_controls self ++ [control])
     (<[name_of control := control]> (_control_lookup self)).

(** [Gui(controls)] *)
Definition init (controls : list ref) : t :=
  foldl add (mk [] ∅) controls.

(** [self[key]] *)
Definition getitem (self : t) (key : string) : result ref :=
  match _control_lookup self !! key with
  | Some control => Ok control
  | None => Raise (KeyError key)
  end.
End with_references.
Arguments t : clear implicits.

(** [Gui.from_string(s)]: the controls the parser builds are
    designated by their values. *)
Definition from_string (s : string) : result (t Control) :=
  controls ← parse_controls s;
  Ok (init name controls).
End Gui.

(** *** Control.edit

    The values a flag can carry.  [VFunction f] is a callable of the
    caller that takes no argument, named by [f]; [VLambda cell] is a
    function object made by the expression [lambda _: value()] of
    [thunk_commands], whose free variable [value] lives in the frame
    [cell] of the call of [thunk_commands] that made it. *)
Inductive value : Type :=
  | VBool (b : bool)
  | VInt (z : Z)
  | VStr (s : string)
  | VFunction (f : nat)
  | VLambda (cell : nat).

(** The frames of the calls of [thunk_commands] made so far: for each,
    the current binding of its local variable [value] (None while
    unbound). *)
Abbreviation frames := (list (option value)).

(** [hasattr(value, '__call__')] *)
Definition callable (v : value) : bool :=
  match v with
  | VFunction _ | VLambda _ => true
  | _ => false
  end.

(** ['command' in flag.lower()] *)
Definition is_command_flag (flag : string) : bool :=
  Py.contains "command" (Py.lower flag).

(** [v()]: the user callables it runs, in order. *)
Definition call0 (v : value) : result (list nat) :=
  match v with
  | VFunction f => Ok [f]
  | VLambda _ => Raise (TypeError "<lambda>() takes exactly 1 argument (0 given)")
  | _ => Raise (TypeError "object is not callable")
  end.

(** [v(arg)] with one positional argument, as the host calls a command
    flag: the body [value()] of a lambda reads [value] from the frame
    when the lambda is called. *)
Definition call1 (σ : frames) (v : value) : result (list nat) :=
  match v with
  | VLambda cell =>
      match σ !! cell with
      | Some (Some captured) => call0 captured
      | _ => Raise NameError
      end
  | VFunction _ => Raise (TypeError "takes no arguments (1 given)")
  | _ => Raise (TypeError "object is not callable")
  end.

Section edit.
(** The order in which [flags.iteritems()] yields the items of a
    dictionary is fixed by the hash table, not by the program. *)
Context (iteritems : gmap string value → list (string * value)).

(** One turn of the loop of [thunk_commands] in the frame [cell]: the
    loop target binds the frame's [value], and the flag is rebound to
    a lambda when it is a callable command flag. *)
Definition thunk_step (cell : nat) (st : gmap string value * option value)
    (item : string * value) : gmap string value * option value :=
  let '(flag, value) := item in
  let flags := st.1 in
  (if is_command_flag flag && callable value
   then <[flag := VLambda cell]> flags
   else flags,
   Some value).

Definition thunk_commands (flags : gmap string value) (σ : frames)
    : gmap string value * frames :=
  let cell := length σ in
  let '(flags', value) :=
    foldl (thunk_step cell) (flags, None) (iteritems flags) in
  (flags', σ ++ [value]).

(** [self.edit] with the keyword arguments [flags]: the flags handed to
    the host command by [_call_command], and the frames afterwards. *)
Definition edit (flags : gmap string value) (σ : frames)
    : gmap string value * frames :=
  let flags := <["edit" := VBool true]> flags in
  thunk_commands flags σ.
End edit.

End gui.

(** ** state.py *)

Module state.

(** Callbacks are compared by [==]; a callback is named by a number. *)
Definition callback : Type := nat.

Record CallbackNotifier : Type := mkNotifier {
  class_name : string;               (* self.__class__.__name__ *)
  __callbacks : gmap string (list callback);
  __supported_events : list string
}.

(** What a method call leaves behind: the object, the callbacks it ran,
    in order, and how it ended. *)
Record outcome : Type := mkOutcome {
  self_after : CallbackNotifier;
  invoked : list callback;
  ended : result unit
}.

Definition init (class_name : string) (supported_events : list string)
    : CallbackNotifier :=
  mkNotifier class_name ∅ supported_events.

(** ['%s does not support an event named "%s"!' % (cls, event_name)] *)
Definition unsupported_message (cls event_name : string) : string :=
  cls +:+ " does not support an event named " +:+ Py.str1 Py.DQUOTE
      +:+ event_name +:+ Py.str1 Py.DQUOTE +:+ "!".

(** [__check_support]: the exception it raises, if any. *)
Definition __check_support (self : CallbackNotifier) (event_name : string)
    : option exn :=
  if negb (bool_decide (event_name ∈ __supported_events self))
  then Some (TypeError (unsupported_message (class_name self) event_name))
  else None.

(** The [for callback in callbacks] loop of [register] on the list of
    one event. *)
Definition register_loop (registered : list callback)
    (callbacks : list callback) : list callback :=
  foldl (λ registered callback,
           if negb (bool_decide (callback ∈ registered))
           then registered ++ [callback]
           else registered)
        registered callbacks.

Definition register (self : CallbackNotifier) (event_name : string)
    (callbacks : list callback) : outcome :=
  match __check_support self event_name with
  | Some e => mkOutcome self [] (Raise e)
  | None =>
      let table :=
        if negb (bool_decide (is_Some (__callbacks self !! event_name)))
        then <[event_name := []]> (__callbacks self)
        else __callbacks self in
      let table :=
        <[event_name := register_loop (default [] (table !! event_name)) callbacks]>
          table in
      mkOutcome (mkNotifier (class_name self) table (__supported_events self))
                [] (Ok ())
  end.

(** [l.remove(x)]: drops the first occurrence (called only when there
    is one). *)
Fixpoint list_remove (x : callback) (l : list callback) : list callback :=
  match l with
  | [] => []
  | y :: l' => if bool_decide (y = x) then l' else y :: list_remove x l'
  end.

Definition unregister_loop (registered : list callback)
    (callbacks : list callback) : list callback :=
  foldl (λ registered callback,
           if bool_decide (callback ∈ registered)
           then list_remove callback registered
           else registered)
        registered callbacks.

Definition unregister (self : CallbackNotifier) (event_name : string)
    (callbacks : list callback) : outcome :=
  match __check_support self event_name with
  | Some e => mkOutcome self [] (Raise e)
  | None =>
      match __callbacks self !! event_name with
      | None => mkOutcome self [] (Ok ())
      | Some registered =>
          let table :=
            <[event_name := unregister_loop registered callbacks]>
              (__callbacks self) in
          mkOutcome (mkNotifier (class_name self) table (__supported_events self))
                    [] (Ok ())
      end
  end.

Section notification.
Context {W : Type}.

(** Calling a callback.  A callback is any callable of the program: it
    runs on the rest of the program's state, [W], and on the notifier,
    on which it may call [register] and [unregister] again, and it
    returns or raises (a callback that runs for ever has no image
    here). *)
Context (run : callback → W → CallbackNotifier
               → W * CallbackNotifier * option exn).

(** The [for callback in self.__callbacks[event_name]] loop.  The list
    object is the one the methods change in place, so each turn reads
    the current list of the event at the next index [i] and the loop
    ends when the index is past its end; an exception of a callback
    ends the loop and the call.  [invoked] lists the callbacks called
    so far.  The result is None when [fuel] turns do not end the
    loop. *)
Fixpoint notify_loop (fuel : nat) (event_name : string) (i : nat)
    (w : W) (self : CallbackNotifier) (invoked : list callback)
    : option (W * outcome) :=
  match fuel with
  | O => None
  | S fuel' =>
      match default [] (__callbacks self !! event_name) !! i with
      | None => Some (w, mkOutcome self invoked (Ok ()))
      | Some callback =>
          match run callback w self with
          | (w', self', Some e) =>
              Some (w', mkOutcome self' (invoked ++ [callback]) (Raise e))
          | (w', self', None) =>
              notify_loop fuel' event_name (S i) w' self' (invoked ++ [callback])
          end
      end
  end.

Definition _notify (fuel : nat) (w : W) (self : CallbackNotifier)
    (event_name : string) : option (W * outcome) :=
  match __check_support self event_name with
  | Some e => Some (w, mkOutcome self [] (Raise e))
  | None =>
      match __callbacks self !! event_name with
      | None => Some (w, mkOutcome self [] (Ok ()))
      | Some _ => notify_loop fuel event_name 0 w self []
      end
  end.

End notification.

End state.

(** ** Concrete declaration texts used below *)

Module inputs.

Definition dq : string := Py.str1 Py.DQUOTE.
Definition nl : string := Py.str1 Py.LF.

(** [name: type -label "a # b"] *)
Definition quoted_hash_line : string :=
  "name: type -label " +:+ dq +:+ "a # b" +:+ dq.

(** The three-line declaration of the end-to-end scenario. *)
Definition scenario : string :=
  "root: rowLayout -numberOfColumns 2" +:+ nl +:+
  "  btn1: button -label " +:+ dq +:+ "OK" +:+ dq +:+ nl +:+
  "  btn2: button -label " +:+ dq +:+ "Cancel" +:+ dq +:+ " -p root".

(** The command of the third line of [scenario]. *)
Definition btn2_command : string :=
  "button -label " +:+ dq +:+ "Cancel" +:+ dq +:+ " -p root".

(** Five lines at the depths 0, 2, 2, 4 and 0. *)
Definition five_lines : string :=
  "window: columnLayout" +:+ nl +:+
  "  left: button -label one" +:+ nl +:+
  "  right: rowLayout" +:+ nl +:+
  "    inner: text" +:+ nl +:+
  "footer: separator" +:+ nl.

End inputs.

(** ** Invariants and specification-side predicates *)

Module spec.

(** Every character of [s] satisfies [cls]. *)
Fixpoint all_chars (cls : ascii → bool) (s : string) : bool :=
  match s with
  | EmptyString => true
  | String c s' => cls c && all_chars cls s'
  end.

(** The first character of [s], if any, satisfies [cls]. *)
Definition head_in (cls : ascii → bool) (s : string) : bool :=
  match s with
  | EmptyString => false
  | String c _ => cls c
  end.

(** [s] opens with an explicit parent flag whose value starts with the
    run [w] of letters, digits and underscores: a space, [-p] or
    [-parent], a space, an optional double quote, then [w], which is
    not empty and is followed by no further such character. *)
Definition explicit_parent_at (s w : string) : Prop :=
  ∃ flag quote rest,
    s = " -p" +:+ flag +:+ " " +:+ quote +:+ w +:+ rest
    ∧ (flag = EmptyString ∨ flag = "arent")
    ∧ (quote = EmptyString ∨ quote = Py.str1 Py.DQUOTE)
    ∧ w ≠ EmptyString
    ∧ all_chars Re.word_char w = true
    ∧ head_in Re.word_char rest = false.

(** The stacks the parser builds: the sentinel at the bottom and, above
    it, entries of non-negative depth. *)
Definition stack_ok (st : gui.ControlStack.t) : Prop :=
  ∃ entries,
    gui.ControlStack._controls st = entries ++ [(-1, None)]
    ∧ Forall (λ entry : Z * option string, 0 ≤ entry.1) entries.

(** The notifiers a program can hold: made by the constructor and
    changed only by [register] and [unregister], whether they are called
    from outside or from a callback during a notification. *)
Inductive reachable : state.CallbackNotifier → Prop :=
  | reachable_init cls events :
      reachable (state.init cls events)
  | reachable_register n event callbacks :
      reachable n →
      reachable (state.self_after (state.register n event callbacks))
  | reachable_unregister n event callbacks :
      reachable n →
      reachable (state.self_after (state.unregister n event callbacks)).

(** The callbacks of [callbacks] are quiet for an event: called in any
    state, they do not raise and they leave the list of the event as it
    is. *)
Definition quiet {W : Type}
    (run : state.callback → W → state.CallbackNotifier
           → W * state.CallbackNotifier * option exn)
    (event : string) (callbacks : list state.callback) : Prop :=
  ∀ cb w self, cb ∈ callbacks →
    (run cb w self).2 = None
    ∧ state.__callbacks (run cb w self).1.2 !! event
      = state.__callbacks self !! event.

(** The first occurrence of every element, in order. *)
Fixpoint first_occurrences (l : list state.callback) : list state.callback :=
  match l with
  | [] => []
  | x :: l' => x :: filter (λ y, y ≠ x) (first_occurrences l')
  end.

End spec.

(** ** interface/gui.py: creating controls in the host *)

Module runtime.
Section host.
Context {host : Type}.

(** [mel.eval(command)]: the host after the evaluation and, when the
    evaluation raised a RuntimeError, that exception, named by its
    message.  Exceptions of other classes pass through [create] untouched
    and are not modelled. *)
Context (mel_eval : string → host → host * option string).

(** The host and the lines printed so far. *)
Record world : Type := mkWorld {
  host_state : host;
  stdout : list string
}.

(** [(' -p %s' % self.parent_name) if self.parent_name else '']: a parent
    name that is None or the empty string is false. *)
Definition parent_flag (self : gui.Control) : string :=
  match gui.parent_name self with
  | Some parent_name =>
      if Py.truthy parent_name then " -p " +:+ parent_name else EmptyString
  | None => EmptyString
  end.

(** ['%s%s %s %s;' % (control_type, parent_flag, creation_flags, name)] *)
Definition create_command (self : gui.Control) : string :=
  gui.control_type self +:+ parent_flag self +:+ " "
    +:+ gui.creation_flags self +:+ " " +:+ gui.name self +:+ ";".

(** [Control.create]: the world afterwards and the RuntimeError that was
    raised again, if any. *)
Definition Control_create (self : gui.Control) (w : world)
    : world * option string :=
  let command := create_command self in
  match mel_eval command (host_state w) with
  | (h, None) => (mkWorld h (stdout w), None)
  | (h, Some exc) =>
      (mkWorld h (stdout w ++ ["// " +:+ command +:+ " //"]), Some exc)
  end.

Context {ref : Type} (deref : ref → gui.Control).

(** The loop of [Gui.create]. *)
Fixpoint create_loop (controls : list ref) (w : world) : world * option string :=
  match controls with
  | [] => (w, None)
  | control :: controls' =>
      match Control_create (deref control) w with
      | (w', None) => create_loop controls' w'
      | (w', Some exc) => (w', Some exc)
      end
  end.

Definition Gui_create (self : gui.Gui.t ref) (w : world) : world * option string :=
  create_loop (gui.Gui._controls self) w.

(** [self.extend(other)], for [other] an object distinct from [self]:
    the Gui [self] afterwards, and what [other.create()] leaves. *)
Definition Gui_extend (self other : gui.Gui.t ref) (w : world)
    : gui.Gui.t ref * (world * option string) :=
  let self :=
    foldl (gui.Gui.add (λ r, gui.name (deref r))) self (gui.Gui._controls other) in
  (self, Gui_create other w).

End host.
Arguments world : clear implicits.
End runtime.

(** ** interface/gui.py: editing controls in the host *)

Module editing.
Section host.
Context {host : Type}.

(** [mc.__dict__[control_type](name, flags)], the call [_call_command]
    makes: the host afterwards and the exception raised, if any (a
    KeyError when [maya.cmds] has no command of that name, or whatever
    the command raises). *)
Context (call_command :
           string → string → gmap string gui.value → host → host * option exn).

(** The orders in which the two kinds of dictionary are iterated. *)
Context (iteritems : gmap string gui.value → list (string * gui.value)).
Context (iteritems_edits :
           gmap string (gmap string gui.value)
           → list (string * gmap string gui.value)).

(** The host and the frames of the calls of [thunk_commands]. *)
Record world : Type := mkWorld {
  host_state : host;
  frames : gui.frames
}.

(** The call [control.edit(flags)] with the items of [flags] as keyword
    arguments, as [Gui.edit] makes it.  [edit] is declared with the
    parameters [self] and the keyword dictionary, so a keyword named
    [self] meets the receiver and the call raises TypeError before the
    body runs; otherwise the body runs and ends with the call of the
    host command. *)
Definition Control_edit (self : gui.Control) (flags : gmap string gui.value)
    (w : world) : world * option exn :=
  if bool_decide (is_Some (flags !! "self"))
  then (w, Some (TypeError
                   "edit() got multiple values for keyword argument 'self'"))
  else
    let '(flags', σ') := gui.edit iteritems flags (frames w) in
    let '(h, raised) :=
      call_command (gui.control_type self) (gui.name self) flags' (host_state w) in
    (mkWorld h σ', raised).

Context {ref : Type} (deref : ref → gui.Control).

(** The loop of [Gui.edit] over the items of [per_control_edits]. *)
Fixpoint edit_loop (self : gui.Gui.t ref)
    (items : list (string * gmap string gui.value)) (w : world)
    : world * option exn :=
  match items with
  | [] => (w, None)
  | (control_name, edit_flags) :: items' =>
      match gui.Gui.getitem self control_name with
      | Raise e => (w, Some e)
      | Ok control =>
          match Control_edit (deref control) edit_flags w with
          | (w', None) => edit_loop self items' w'
          | (w', Some e) => (w', Some e)
          end
      end
  end.

Definition Gui_edit (self : gui.Gui.t ref)
    (per_control_edits : gmap string (gmap string gui.value)) (w : world)
    : world * option exn :=
  edit_loop self (iteritems_edits per_control_edits) w.

End host.
Arguments world : clear implicits.
End editing.

(** ** interface/window.py *)

Module window.

(** The flags [Window.__init__] hands to [mc.window]: from [flags = flags
    or {}] up to the call.  A missing or empty dictionary of flags is
    false and gives way to an empty one. *)
Definition window_flags (title : string) (size : Z * Z)
    (flags : option (gmap string gui.value)) : gmap string gui.value :=
  let '(width, height) := size in
  let flags := default ∅ flags in
  let flags := <["title" := gui.VStr title]> flags in
  let flags := <["width" := gui.VInt width]> flags in
  let flags := <["height" := gui.VInt height]> flags in
  foldl (λ (flags : gmap string gui.value) key,
           if negb (bool_decide (is_Some (flags !! key)))
           then <[key := gui.VBool true]> flags
           else flags)
        flags ["toolbox"; "resizeToFitChildren"].

End window.

(** ** Reference definitions for the parser *)

Module reference.

(** The width the parser gives a run of spaces and tabs: one per space,
    four per tab. *)
Fixpoint indent_width (blanks : string) : Z :=
  match blanks with
  | EmptyString => 0
  | String c blanks' =>
      (if Ascii.eqb c Py.TAB then 4 else 1) + indent_width blanks'
  end.

(** The name of the nearest earlier line that is strictly shallower than
    depth [d]; [earlier] lists the lines before, the most recent first. *)
Fixpoint nearest_shallower (d : Z) (earlier : list (Z * string * string))
    : option string :=
  match earlier with
  | [] => None
  | (d', nm, _) :: earlier' =>
      if d' <? d then Some nm else nearest_shallower d earlier'
  end.

(** The parent each line is to get: the one its command names, or else
    the nearest earlier strictly shallower line. *)
Fixpoint expected_parents (earlier lines : list (Z * string * string))
    : list (option string) :=
  match lines with
  | [] => []
  | (d, nm, command) :: lines' =>
      match Re.search gui.parent_name_pattern command with
      | Some m => Re.group1 m
      | None => nearest_shallower d earlier
      end :: expected_parents ((d, nm, command) :: earlier) lines'
  end.

(** The stack answers, for every depth, with the nearest earlier line
    that is strictly shallower. *)
Definition stack_tracks (cs : list (Z * option string))
    (earlier : list (Z * string * string)) : Prop :=
  ∀ d, 0 ≤ d →
    ∃ top below, gui.ControlStack.pop_loop d cs = Ok (top :: below)
                 ∧ top.2 = nearest_shallower d earlier.

(** A line of the parser's input is well formed when its depth is not
    negative and its command starts with a character that is not blank. *)
Definition well_formed_triple (t : Z * string * string) : Prop :=
  0 ≤ t.1.1 ∧ ∃ c rest, t.2 = String c rest ∧ Py.isspace c = false.

(** The character [c] when [s] starts with it, and nothing otherwise;
    and what of [s] comes after it. *)
Definition optional_char (c : ascii) (s : string) : string :=
  match s with
  | String c' _ => if Ascii.eqb c c' then Py.str1 c else EmptyString
  | EmptyString => EmptyString
  end.

Definition after_optional (c : ascii) (s : string) : string :=
  match s with
  | String c' s' => if Ascii.eqb c c' then s' else s
  | EmptyString => EmptyString
  end.

(** What the parent pattern still matches after the run of letters,
    digits and underscores: a double quote when one follows, then a space
    when one follows. *)
Definition trailer (rest : string) : string :=
  optional_char Py.DQUOTE rest
    +:+ optional_char Py.SPACE (after_optional Py.DQUOTE rest).

(** A token: a text that is not empty and holds no blank. *)
Definition token (t : string) : Prop :=
  t ≠ EmptyString ∧ spec.all_chars (λ c, negb (Py.isspace c)) t = true.

End reference.

(** ** Sample hosts and controls *)

Module samples.

(** A host that logs the commands it is given and raises on those that
    mention [bogus]. *)
Definition logging_eval (command : string) (h : list string)
    : list string * option string :=
  (h ++ [command],
   if Py.contains "bogus" command then Some "Cannot find procedure" else None).

Definition window_layout : gui.Control :=
  gui.mkControl "main" "columnLayout" "-adj 1" None.
Definition bad_button : gui.Control :=
  gui.mkControl "go" "bogusButton" "-label Go" (Some "main").
Definition last_text : gui.Control :=
  gui.mkControl "note" "text" "-label Done" (Some "main").

(** A host that counts the calls it receives and accepts them all. *)
Definition counting_call (type nm : string) (flags : gmap string gui.value)
    (h : nat) : nat * option exn :=
  (S h, None).

(** Five lines at the depths 0, 2, 2, 4 and 0, the second without a
    command. *)
Definition empty_command_text : string :=
  "a: x" +:+ inputs.nl +:+ "  b:" +:+ inputs.nl +:+ "  c: x" +:+ inputs.nl
    +:+ "    d: x" +:+ inputs.nl +:+ "e: x".

(** A command with no parent flag but with a quoted value that holds the
    text of one. *)
Definition quoted_parent_command : string :=
  "text -label " +:+ inputs.dq +:+ " -p x" +:+ inputs.dq.

(** Callbacks that do nothing, but for callback 1, which raises. *)
Definition first_raises (cb : state.callback) (w : unit)
    (self : state.CallbackNotifier) : unit * state.CallbackNotifier * option exn :=
  (w, self, if Nat.eqb cb 1 then Some (TypeError "callback failed") else None).

(** Callbacks that do nothing at all. *)
Definition do_nothing (cb : state.callback) (w : unit)
    (self : state.CallbackNotifier) : unit * state.CallbackNotifier * option exn :=
  (w, self, None).

(** Callbacks of which callback 1 unregisters itself from the event
    [changed], the others doing nothing. *)
Definition first_leaves (cb : state.callback) (w : unit)
    (self : state.CallbackNotifier) : unit * state.CallbackNotifier * option exn :=
  (w,
   if Nat.eqb cb 1
   then state.self_after (state.unregister self "changed" [1%nat])
   else self,
   None).

End samples.

(** * Properties *)

(** ** Sequencing *)

Lemma bind_Ok {A B} (a : A) (f : A → result B) : Ok a ≫= f = f a.
Proof. reflexivity. Qed.

Lemma bind_Raise {A B} (e : exn) (f : A → result B) : Raise e ≫= f = Raise e.
Proof. reflexivity. Qed.

(** ** Strings *)

Lemma app_empty_l (s : string) : EmptyString +:+ s = s.
Proof. reflexivity. Qed.

Lemma app_String c (s t : string) : String c s +:+ t = String c (s +:+ t).
Proof. reflexivity. Qed.

Lemma app_empty_r (s : string) : s +:+ EmptyString = s.
Proof. induction s as [|c s IH]; [done|]. by rewrite app_String, IH. Qed.

Lemma app_assoc_str (s t u : string) : (s +:+ t) +:+ u = s +:+ t +:+ u.
Proof. induction s as [|c s IH]; [done|]. by rewrite !app_String, IH. Qed.

Lemma length_app_str (s t : string) :
  String.length (s +:+ t) = (String.length s + String.length t)%nat.
Proof. induction s as [|c s IH]; [done|]. rewrite app_String. cbn. by rewrite IH. Qed.

(** ** Comment stripping *)

Lemma strip_comments_loop_state (st : gui.scan_state) c :
  (if gui.quote_open st then gui.close_quote st else gui.open_quote c st) = st.
Proof. by destruct (gui.quote_open st). Qed.

(** With [quote_open] still false, the scan stops at the first hash. *)
Lemma strip_comments_loop_first_hash st done pre post :
  gui.quote_open st = false →
  Py.find Py.HASH pre = -1 →
  gui.strip_comments_loop st done (pre +:+ String Py.HASH post)
  = String.rev_app done pre.
Proof.
  intros Hq. revert done. induction pre as [|c pre IH]; intros done Hfind.
  - rewrite app_empty_l. cbn [gui.strip_comments_loop].
    by rewrite Ascii.eqb_refl, Hq.
  - cbn [Py.find] in Hfind.
    destruct (Ascii.eqb c Py.HASH) eqn:Hc; [done|].
    assert (Py.find Py.HASH pre = -1) as Hpre.
    { destruct (Py.find Py.HASH pre <? 0) eqn:Hlt; [|lia].
      apply Z.ltb_lt in Hlt.
      clear -Hlt. induction pre as [|c' pre IH']; [done|].
      cbn [Py.find] in *. destruct (Ascii.eqb c' Py.HASH); [lia|].
      destruct (Py.find Py.HASH pre <? 0) eqn:E; [done|].
      apply Z.ltb_ge in E. lia. }
    rewrite app_String. cbn [gui.strip_comments_loop]. rewrite Hc. cbn [andb].
    rewrite strip_comments_loop_state.
    destruct (Py.char_in c (gui.quote_chars st)); by rewrite IH.
Qed.

(** C1 (the code departs from the claim): every line is cut at its first
    hash, whether or not a quote opened before it; the quote state that
    the scan reads never changes. *)
Theorem C1_line_cut_at_first_hash (pre post : string) :
  Py.find Py.HASH pre = -1 →
  gui.strip_comments (pre +:+ String Py.HASH post) = pre.
Proof.
  intros Hfind. unfold gui.strip_comments.
  by rewrite strip_comments_loop_first_hash.
Qed.

(** The line [name: type -label "a # b"] loses everything from the hash
    inside the double quotes. *)
Lemma C1_line_cut_at_first_hash_witness :
  gui.strip_comments inputs.quoted_hash_line
  = "name: type -label " +:+ inputs.dq +:+ "a ".
Proof.
  exact (C1_line_cut_at_first_hash
           ("name: type -label " +:+ inputs.dq +:+ "a ")
           (" b" +:+ inputs.dq) eq_refl).
Defined.

(** The control parsed from that line: its creation flags stop after the
    letter a instead of holding the full quoted value. *)
Lemma quoted_hash_flags_are_cut :
  gui.parse_controls inputs.quoted_hash_line
  = Ok [gui.mkControl "name" "type" ("-label " +:+ inputs.dq +:+ "a") None].
Proof. vm_compute. reflexivity. Qed.

(** ** Lines without a colon *)

(** The colonless line [button] is parsed without any error into a
    control named [butto], the line less its last character, whose
    command is the whole line. *)
Lemma colonless_button_is_accepted :
  Py.find Py.COLON "button" = -1
  ∧ gui.split_control "button" = ("butto", "button")
  ∧ gui.parse_controls "button" = Ok [gui.mkControl "butto" "button" EmptyString None].
Proof. repeat split; vm_compute; reflexivity. Qed.

(** ** The end-to-end scenario *)

(** C5: the three-line scenario parses to [root] without parent, [btn1]
    with the parent [root] inferred from indentation, and [btn2] with the
    parent [root]; the explicit [-p root] of [btn2] is taken out of its
    creation flags and wins over whatever parent the stack infers. *)
Theorem C5_scenario :
  gui.parse_controls inputs.scenario
  = Ok [gui.mkControl "root" "rowLayout" "-numberOfColumns 2" None;
        gui.mkControl "btn1" "button" ("-label " +:+ inputs.dq +:+ "OK" +:+ inputs.dq)
          (Some "root");
        gui.mkControl "btn2" "button" ("-label " +:+ inputs.dq +:+ "Cancel" +:+ inputs.dq)
          (Some "root")]
  ∧ gui.Gui._controls <$> gui.Gui.from_string inputs.scenario
    = gui.parse_controls inputs.scenario
  ∧ (gui.parse_line (gui.meaningful_lines inputs.scenario)).*1.*1 = [0; 2; 2]
  ∧ ∀ inferred,
      gui.Control_from_string "btn2" inputs.btn2_command inferred
      = Ok (gui.mkControl "btn2" "button"
              ("-label " +:+ inputs.dq +:+ "Cancel" +:+ inputs.dq) (Some "root")).
Proof.
  split; [by vm_compute|]. split; [by vm_compute|]. split; [by vm_compute|].
  intros inferred. by vm_compute.
Qed.

(** ** The control stack *)

Lemma stack_ok_init : spec.stack_ok gui.ControlStack.init.
Proof. exists []. by split. Qed.

(** Popping at a non-negative depth stops at an entry strictly below that
    depth, at worst the sentinel, and leaves a well-formed stack. *)
Lemma pop_loop_spec (d : Z) (entries : list (Z * option string)) :
  0 ≤ d →
  Forall (λ entry : Z * option string, 0 ≤ entry.1) entries →
  ∃ top below,
    gui.ControlStack.pop_loop d (entries ++ [(-1, None)]) = Ok (top :: below)
    ∧ -1 ≤ top.1 < d
    ∧ spec.stack_ok (gui.ControlStack.mk (top :: below)).
Proof.
  intros Hd. induction entries as [|[depth nm] entries IH]; intros Hall.
  - exists (-1, None), []. cbn.
    destruct (-1 >=? d) eqn:E; [lia|].
    split; [done|]. split; [lia|]. apply stack_ok_init.
  - apply Forall_cons in Hall as [Hdepth Hall]. cbn in Hdepth.
    cbn [app gui.ControlStack.pop_loop].
    destruct (depth >=? d) eqn:E.
    + by apply IH.
    + exists (depth, nm), (entries ++ [(-1, None)]).
      split; [done|]. split; [cbn; lia|].
      exists ((depth, nm) :: entries). split; [done|]. by constructor.
Qed.

Lemma pop_spec (d : Z) (st : gui.ControlStack.t) :
  0 ≤ d → spec.stack_ok st →
  ∃ top below,
    gui.ControlStack.pop d st = Ok (gui.ControlStack.mk (top :: below))
    ∧ -1 ≤ top.1 < d
    ∧ spec.stack_ok (gui.ControlStack.mk (top :: below)).
Proof.
  intros Hd (entries & Hst & Hall).
  destruct (pop_loop_spec d entries Hd Hall) as (top & below & Hpop & Hlt & Hok).
  exists top, below. unfold gui.ControlStack.pop. rewrite Hst, Hpop. by cbn.
Qed.

(** After such a pop the assertion of [push] holds. *)
Lemma push_after_pop (d : Z) (nm : string) top below :
  0 ≤ d → top.1 < d →
  spec.stack_ok (gui.ControlStack.mk (top :: below)) →
  gui.ControlStack.push d nm (gui.ControlStack.mk (top :: below))
  = Ok (gui.ControlStack.mk ((d, Some nm) :: top :: below))
  ∧ spec.stack_ok (gui.ControlStack.mk ((d, Some nm) :: top :: below)).
Proof.
  intros Hd Hlt (entries & Hst & Hall). cbn in Hst.
  unfold gui.ControlStack.push. cbn. destruct top as [depth tn]. cbn in Hlt.
  destruct (d >? depth) eqn:E; [|lia].
  split; [done|].
  exists ((d, Some nm) :: entries). cbn. rewrite Hst. split; [done|].
  by constructor.
Qed.

Lemma Control_from_string_raises nm command parent e :
  gui.Control_from_string nm command parent = Raise e → e = IndexError.
Proof.
  unfold gui.Control_from_string.
  destruct (Re.search _ _) as [m|];
    (match goal with |- context [gui.first_token ?l] => destruct l end);
    cbn; congruence.
Qed.

Lemma collect_controls_raises triples controls st e :
  Forall (λ t : Z * string * string, 0 ≤ t.1.1) triples →
  spec.stack_ok st →
  gui.collect_controls triples controls st = Raise e → e = IndexError.
Proof.
  intros Hall. revert controls st.
  induction Hall as [|[[d nm] cmd] triples Hd Hall IH]; intros controls st Hok.
  - cbn. congruence.
  - cbn in Hd. cbn [gui.collect_controls].
    destruct (pop_spec d st Hd Hok) as (top & below & -> & Hlt & Hok').
    rewrite bind_Ok. destruct top as [depth tn].
    cbn [gui.ControlStack.top_control gui.ControlStack._controls].
    rewrite bind_Ok.
    destruct (gui.Control_from_string nm cmd tn) as [c|e'] eqn:Hc.
    + destruct (push_after_pop d nm (depth, tn) below Hd) as [-> Hok''];
        [cbn in *; lia|done|].
      rewrite !bind_Ok. by apply IH.
    + rewrite bind_Raise. intros [= <-]. by eapply Control_from_string_raises.
Qed.

Lemma get_indentation_level_nonneg line : 0 ≤ gui.get_indentation_level line.
Proof.
  unfold gui.get_indentation_level.
  destruct (Re.match_ _ _); [|done]. unfold Py.len. lia.
Qed.

Lemma parse_line_depths lines :
  Forall (λ t : Z * string * string, 0 ≤ t.1.1) (gui.parse_line lines).
Proof.
  unfold gui.parse_line. apply Forall_fmap, Forall_true. intros line. cbn.
  destruct (gui.split_control line). cbn. apply get_indentation_level_nonneg.
Qed.

(** C7: whatever the declaration text, parsing never fails on the
    assertion of [ControlStack.push]; the only exception the parser can
    raise is the IndexError of a declaration whose command is empty. *)
Theorem C7_push_assertion_holds (s : string) :
  gui.parse_controls s ≠ Raise AssertionError
  ∧ gui.Gui.from_string s ≠ Raise AssertionError
  ∧ ∀ e, gui.Gui.from_string s = Raise e → e = IndexError.
Proof.
  assert (∀ e, gui.parse_controls s = Raise e → e = IndexError) as H.
  { intros e Hraise.
    apply collect_controls_raises in Hraise;
      [done|apply parse_line_depths|apply stack_ok_init]. }
  assert (∀ e, gui.Gui.from_string s = Raise e → e = IndexError) as H'.
  { intros e. unfold gui.Gui.from_string.
    destruct (gui.parse_controls s) as [cs|e'] eqn:E; cbn; [done|].
    intros [= <-]. by apply H. }
  split; [|split; [|done]].
  - intros Hraise. by apply H in Hraise.
  - intros Hraise. by apply H' in Hraise.
Qed.

(** ** Parents inferred from indentation *)

(** A command without explicit parent flag and with at least one token
    yields a control whose parent is the one handed in. *)
Lemma Control_from_string_inferred nm command parent :
  Re.search gui.parent_name_pattern command = None →
  Py.split command ≠ [] →
  ∃ c, gui.Control_from_string nm command parent = Ok c
       ∧ gui.name c = nm ∧ gui.parent_name c = parent.
Proof.
  intros Hsearch Htokens. unfold gui.Control_from_string. rewrite Hsearch.
  destruct (Py.split command) as [|t ts]; [done|]. cbn. eauto.
Qed.

(** One turn of the main loop, for a line without explicit parent. *)
Lemma collect_controls_step d nm command triples controls st top below :
  Re.search gui.parent_name_pattern command = None →
  Py.split command ≠ [] →
  gui.ControlStack.pop d st = Ok (gui.ControlStack.mk (top :: below)) →
  (d >? top.1) = true →
  ∃ c, gui.name c = nm ∧ gui.parent_name c = top.2
       ∧ gui.collect_controls ((d, nm, command) :: triples) controls st
         = gui.collect_controls triples (controls ++ [c])
             (gui.ControlStack.mk ((d, Some nm) :: top :: below)).
Proof.
  intros Hsearch Htokens Hpop Hgt. destruct top as [depth tn]. cbn in Hgt.
  destruct (Control_from_string_inferred nm command tn Hsearch Htokens)
    as (c & Hc & Hname & Hparent).
  exists c. split; [done|]. split; [done|].
  cbn [gui.collect_controls]. rewrite Hpop, bind_Ok.
  cbn [gui.ControlStack.top_control gui.ControlStack._controls].
  rewrite bind_Ok, Hc, bind_Ok.
  unfold gui.ControlStack.push. cbn [gui.ControlStack._controls].
  by rewrite Hgt, bind_Ok.
Qed.

(** C6 (as amended): a declaration text whose five meaningful lines are
    at the depths 0, 2, 2, 4, 0, each with a command, and in none of which
    the parent pattern matches anywhere (inside a quoted value or not),
    is parsed into five controls whose parents are: none, the first line,
    the first line, the third line (the last one at depth 2), and
    none. *)
Theorem C6_indentation_parents (s : string)
    (n0 n1 n2 n3 n4 c0 c1 c2 c3 c4 : string) :
  gui.parse_line (gui.meaningful_lines s)
  = [(0, n0, c0); (2, n1, c1); (2, n2, c2); (4, n3, c3); (0, n4, c4)] →
  Forall (λ command, Re.search gui.parent_name_pattern command = None
                     ∧ Py.split command ≠ []) [c0; c1; c2; c3; c4] →
  ∃ controls,
    gui.parse_controls s = Ok controls
    ∧ gui.name <$> controls = [n0; n1; n2; n3; n4]
    ∧ gui.parent_name <$> controls = [None; Some n0; Some n0; Some n2; None].
Proof.
  intros Hlines Hall. unfold gui.parse_controls. rewrite Hlines.
  repeat (apply Forall_cons in Hall as [[? ?] Hall]).
  edestruct (collect_controls_step 0 n0 c0) as (k0 & Hn0 & Hp0 & ->);
    [done|done|reflexivity|reflexivity|].
  edestruct (collect_controls_step 2 n1 c1) as (k1 & Hn1 & Hp1 & ->);
    [done|done|reflexivity|reflexivity|].
  edestruct (collect_controls_step 2 n2 c2) as (k2 & Hn2 & Hp2 & ->);
    [done|done|reflexivity|reflexivity|].
  edestruct (collect_controls_step 4 n3 c3) as (k3 & Hn3 & Hp3 & ->);
    [done|done|reflexivity|reflexivity|].
  edestruct (collect_controls_step 0 n4 c4) as (k4 & Hn4 & Hp4 & ->);
    [done|done|reflexivity|reflexivity|].
  exists [k0; k1; k2; k3; k4]. split; [done|]. cbn in *.
  split; congruence.
Qed.

(** The text [inputs.five_lines]. *)
Lemma C6_indentation_parents_witness :
  ∃ controls,
    gui.parse_controls inputs.five_lines = Ok controls
    ∧ gui.name <$> controls = ["window"; "left"; "right"; "inner"; "footer"]
    ∧ gui.parent_name <$> controls
      = [None; Some "window"; Some "window"; Some "right"; None].
Proof.
  apply (C6_indentation_parents inputs.five_lines
           "window" "left" "right" "inner" "footer"
           "columnLayout" "button -label one" "rowLayout" "text" "separator").
  - vm_compute. reflexivity.
  - repeat (apply Forall_cons; split; [split; [vm_compute; reflexivity|discriminate]|]).
    apply Forall_nil_2.
Defined.

(** C6 (counterexample to the claim as first stated): five lines at the
    depths 0, 2, 2, 4, 0, none with a parent flag; the second has no
    command, parsing raises IndexError and no parent is inferred at
    all. *)
Lemma C6_empty_command_raises :
  (gui.parse_line (gui.meaningful_lines samples.empty_command_text)).*1.*1
  = [0; 2; 2; 4; 0]
  ∧ Forall (λ t : Z * string * string,
              Re.search gui.parent_name_pattern t.2 = None)
      (gui.parse_line (gui.meaningful_lines samples.empty_command_text))
  ∧ gui.parse_controls samples.empty_command_text = Raise IndexError
  ∧ gui.Gui.from_string samples.empty_command_text = Raise IndexError.
Proof.
  split; [by vm_compute|]. split; [|split; by vm_compute].
  vm_compute. repeat (apply Forall_cons; split; [reflexivity|]).
  apply Forall_nil_2.
Qed.

(** The text of a parent flag inside a quoted value is taken for a parent
    flag: the parent inferred from the stack is dropped for it. *)
Lemma quoted_parent_text_is_extracted :
  gui.Control_from_string "b" samples.quoted_parent_command (Some "a")
  = Ok (gui.mkControl "b" "text" ("-label " +:+ inputs.dq) (Some "x")).
Proof. by vm_compute. Qed.

(** ** The Gui container *)

Section gui_add.
Context {ref : Type} (name_of : ref → string).

Local Abbreviation add := (gui.Gui.add name_of).
Local Abbreviation init := (gui.Gui.init name_of).
Local Abbreviation getitem := (@gui.Gui.getitem ref).

Lemma foldl_add_snoc g cs c : foldl add g (cs ++ [c]) = add (foldl add g cs) c.
Proof. by rewrite foldl_app. Qed.

Lemma controls_foldl_add g cs :
  gui.Gui._controls (foldl add g cs) = gui.Gui._controls g ++ cs.
Proof.
  revert g. induction cs as [|c cs IH]; intros g; cbn.
  - by rewrite app_nil_r.
  - rewrite IH. cbn. by rewrite <- app_assoc.
Qed.

(** Adds made after construction extend the constructor's list. *)
Lemma init_then_add cs adds : foldl add (init cs) adds = init (cs ++ adds).
Proof. unfold gui.Gui.init. by rewrite foldl_app. Qed.

Lemma getitem_add g c : getitem (add g c) (name_of c) = Ok c.
Proof. unfold gui.Gui.getitem. cbn. by rewrite lookup_insert_eq. Qed.

(** The index maps the name of every control added to the last control
    added under that name. *)
Lemma lookup_foldl_add g cs c :
  c ∈ cs →
  ∃ c' before after,
    cs = before ++ c' :: after
    ∧ name_of c' = name_of c
    ∧ (∀ x, x ∈ after → name_of x ≠ name_of c)
    ∧ gui.Gui._control_lookup (foldl add g cs) !! name_of c = Some c'.
Proof.
  induction cs as [|x cs IH] using rev_ind; intros Hin.
  - by apply elem_of_nil in Hin.
  - rewrite foldl_add_snoc. cbn.
    destruct (decide (name_of x = name_of c)) as [Heq|Hne].
    + exists x, cs, []. split; [done|]. split; [done|].
      split; [intros y Hy; by apply elem_of_nil in Hy|].
      by rewrite <- Heq, lookup_insert_eq.
    + apply elem_of_app in Hin as [Hin|Hin].
      * destruct (IH Hin) as (c' & before & after & -> & Hname & Hafter & Hlook).
        exists c', before, (after ++ [x]).
        split; [by rewrite <- app_assoc|]. split; [done|]. split.
        -- intros y [Hy|Hy]%elem_of_app; [by apply Hafter|].
           apply list_elem_of_singleton in Hy as ->. done.
        -- by rewrite lookup_insert_ne.
      * apply list_elem_of_singleton in Hin as ->. done.
Qed.

(** C4 (as amended): for a Gui built by the constructor and any further
    adds, the ordered sequence holds the constructor's controls followed
    by the added ones; right after [add(c)] the lookup of the name of
    [c] returns [c] itself; and for every control of the sequence the
    lookup of its name succeeds and returns the control added last
    under that name, which is the control itself when no later control
    of the sequence carries its name. *)
Theorem C4_index_follows_last_add (cs adds : list ref) :
  let g := foldl add (init cs) adds in
  gui.Gui._controls g = cs ++ adds
  ∧ (∀ c, getitem (add g c) (name_of c) = Ok c)
  ∧ (∀ c, c ∈ gui.Gui._controls g →
       ∃ c' before after,
         gui.Gui._controls g = before ++ c' :: after
         ∧ name_of c' = name_of c
         ∧ (∀ x, x ∈ after → name_of x ≠ name_of c)
         ∧ getitem g (name_of c) = Ok c')
  ∧ (∀ before c after,
       gui.Gui._controls g = before ++ c :: after →
       (∀ x, x ∈ after → name_of x ≠ name_of c) →
       getitem g (name_of c) = Ok c).
Proof.
  intros g. subst g. rewrite init_then_add.
  assert (gui.Gui._controls (init (cs ++ adds)) = cs ++ adds) as Hcontrols.
  { unfold gui.Gui.init. by rewrite controls_foldl_add. }
  assert (∀ c, c ∈ cs ++ adds →
            ∃ c' before after,
              cs ++ adds = before ++ c' :: after
              ∧ name_of c' = name_of c
              ∧ (∀ x, x ∈ after → name_of x ≠ name_of c)
              ∧ getitem (init (cs ++ adds)) (name_of c) = Ok c') as Hlast.
  { intros c Hin.
    destruct (lookup_foldl_add (gui.Gui.mk [] ∅) (cs ++ adds) c Hin)
      as (c' & before & after & Heq & Hname & Hafter & Hlook).
    exists c', before, after. repeat split; try done.
    unfold gui.Gui.getitem, gui.Gui.init. by rewrite Hlook. }
  split; [done|]. split; [intros c; apply getitem_add|].
  rewrite Hcontrols. split; [done|].
  intros before c after Heq Hlater.
  destruct (Hlast c) as (c' & before' & after' & Heq' & Hname & Hafter & Hget).
  { rewrite Heq. apply elem_of_app. right. apply list_elem_of_here. }
  rewrite Hget. f_equal.
  (* the last control carrying the name is c itself *)
  assert (c' ∈ before ++ c :: after) as Hc'.
  { rewrite <- Heq, Heq'. apply elem_of_app. right. apply list_elem_of_here. }
  rewrite Heq in Heq'.
  clear -Heq' Hname Hafter Hlater.
  revert before' Heq'. induction before as [|b before IH]; intros before' Heq'.
  - destruct before' as [|b' before']; cbn in Heq'.
    + by injection Heq' as ->.
    + injection Heq' as -> ->. exfalso. apply (Hlater c'); [|done].
      apply elem_of_app. right. apply list_elem_of_here.
  - destruct before' as [|b' before']; cbn in Heq'.
    + injection Heq' as -> <-. exfalso. apply (Hafter c); [|done].
      apply elem_of_app. right. apply list_elem_of_here.
    + injection Heq' as -> Heq'. by apply (IH before').
Qed.
End gui_add.

(** Three controls, the first two under one name: the lookup of that name
    gives the second, the lookup of the other name the third. *)
Lemma C4_index_follows_last_add_witness :
  let name_of := λ n : nat, if (n <? 2)%nat then "ok" else "cancel" in
  let g := foldl (gui.Gui.add name_of) (gui.Gui.init name_of [0%nat])
             [1%nat; 2%nat] in
  gui.Gui.getitem g "ok" = Ok 1%nat ∧ gui.Gui.getitem g "cancel" = Ok 2%nat.
Proof.
  intros name_of g.
  destruct (C4_index_follows_last_add name_of [0%nat] [1%nat; 2%nat])
    as (Hcontrols & _ & _ & Hlast).
  split.
  - apply (Hlast [0%nat] 1%nat [2%nat] Hcontrols).
    intros x Hx. apply list_elem_of_singleton in Hx as ->. discriminate.
  - apply (Hlast [0%nat; 1%nat] 2%nat [] Hcontrols).
    intros x Hx. by apply elem_of_nil in Hx.
Defined.

(** C4 (counterexample to the claim as first stated): two distinct
    controls that carry the same name are added one after the other; the
    first stays in the ordered sequence, yet the lookup of its name
    returns the second. *)
Lemma C4_first_control_shadowed :
  let name_of := λ _ : nat, "button1" in
  let g := gui.Gui.add name_of (gui.Gui.add name_of (gui.Gui.mk [] ∅) 0%nat) 1%nat in
  0%nat ∈ gui.Gui._controls g
  ∧ gui.Gui.getitem g (name_of 0%nat) = Ok 1%nat
  ∧ gui.Gui.getitem g (name_of 0%nat) ≠ Ok 0%nat.
Proof.
  cbn. split; [apply list_elem_of_here|].
  unfold gui.Gui.getitem. cbn. rewrite lookup_insert_eq. split; [done|congruence].
Qed.

(** ** The callback notifier *)

Lemma register_loop_snoc registered callbacks cb :
  state.register_loop registered (callbacks ++ [cb])
  = let l := state.register_loop registered callbacks in
    if negb (bool_decide (cb ∈ l)) then l ++ [cb] else l.
Proof. unfold state.register_loop. by rewrite foldl_app. Qed.

(** The loop of [register] only appends, appends nothing twice, and ends
    with every given callback in the list. *)
Lemma register_loop_spec registered callbacks :
  NoDup registered →
  let l := state.register_loop registered callbacks in
  NoDup l ∧ registered `prefix_of` l
  ∧ ∀ cb, cb ∈ l ↔ cb ∈ registered ∨ cb ∈ callbacks.
Proof.
  intros Hnodup. induction callbacks as [|cb callbacks IH] using rev_ind.
  - cbn. split; [done|]. split; [done|]. intros cb. rewrite elem_of_nil. tauto.
  - cbn zeta in *. rewrite register_loop_snoc. cbn zeta.
    destruct IH as (IHnodup & IHprefix & IHin).
    set (l := state.register_loop registered callbacks) in *.
    destruct (decide (cb ∈ l)) as [Hin|Hnotin].
    + rewrite bool_decide_eq_true_2 by done. cbn.
      split; [done|]. split; [done|]. intros x.
      rewrite IHin, elem_of_app, list_elem_of_singleton.
      split; [tauto|]. intros [?|[?| ->]]; [tauto|tauto|]. by apply IHin.
    + rewrite bool_decide_eq_false_2 by done. cbn.
      split.
      { apply NoDup_app. split; [done|]. split; [|apply NoDup_singleton].
        intros x Hx ->%list_elem_of_singleton. done. }
      split.
      { etrans; [done|]. by apply prefix_app_r. }
      intros x. rewrite !elem_of_app, IHin, list_elem_of_singleton. tauto.
Qed.

(** Registering callbacks that are all present changes nothing. *)
Lemma register_loop_present registered callbacks :
  (∀ cb, cb ∈ callbacks → cb ∈ registered) →
  state.register_loop registered callbacks = registered.
Proof.
  induction callbacks as [|cb callbacks IH] using rev_ind; intros Hall; [done|].
  rewrite register_loop_snoc. cbn zeta. rewrite IH.
  - rewrite bool_decide_eq_true_2; [done|].
    apply Hall, elem_of_app. right. apply list_elem_of_here.
  - intros x Hx. apply Hall, elem_of_app. by left.
Qed.

Lemma list_remove_sublist cb l : state.list_remove cb l `sublist_of` l.
Proof.
  induction l as [|y l IH]; cbn; [done|].
  case_bool_decide; [by apply sublist_cons|by apply sublist_skip].
Qed.

Lemma unregister_loop_NoDup registered callbacks :
  NoDup registered → NoDup (state.unregister_loop registered callbacks).
Proof.
  revert registered. unfold state.unregister_loop.
  induction callbacks as [|cb callbacks IH]; intros registered Hnodup; [done|].
  cbn. apply IH. case_bool_decide; [|done].
  eapply sublist_NoDup; [|apply list_remove_sublist]. done.
Qed.

(** No reachable notifier lists a callback twice for an event. *)
Lemma reachable_NoDup n :
  spec.reachable n →
  ∀ event registered,
    state.__callbacks n !! event = Some registered → NoDup registered.
Proof.
  induction 1 as [cls events|n event callbacks Hn IH|n event callbacks Hn IH];
    intros ev registered.
  - cbn. by rewrite lookup_empty.
  - unfold state.register. destruct (state.__check_support n event); [apply IH|].
    cbn. destruct (decide (event = ev)) as [->|Hne].
    + rewrite lookup_insert_eq. intros [= <-].
      apply register_loop_spec.
      case_bool_decide as Hsome; cbn.
      * destruct Hsome as [l Hl]. rewrite Hl. cbn. by eapply IH.
      * rewrite lookup_insert_eq. cbn. apply NoDup_nil_2.
    + rewrite lookup_insert_ne by done.
      case_bool_decide; cbn; [apply IH|].
      rewrite lookup_insert_ne by done. apply IH.
  - unfold state.unregister. destruct (state.__check_support n event); [apply IH|].
    destruct (state.__callbacks n !! event) as [l|] eqn:Hl; [|apply IH].
    cbn. destruct (decide (event = ev)) as [->|Hne].
    + rewrite lookup_insert_eq. intros [= <-].
      apply unregister_loop_NoDup. by eapply IH.
    + rewrite lookup_insert_ne by done. apply IH.
Qed.

Lemma filter_absent (cb : state.callback) (l : list state.callback) :
  cb ∉ l → filter (λ x, x = cb) l = [].
Proof.
  induction l as [|x l IH]; intros Hnotin; [done|].
  apply not_elem_of_cons in Hnotin as [Hne Hnotin].
  rewrite filter_cons_False by congruence. by apply IH.
Qed.

Lemma NoDup_occurs_once (cb : state.callback) (l : list state.callback) :
  NoDup l → cb ∈ l → length (filter (λ x, x = cb) l) = 1%nat.
Proof.
  induction 1 as [|x l Hx Hnodup IH]; intros Hin.
  - by apply elem_of_nil in Hin.
  - rewrite filter_cons. destruct (decide (x = cb)) as [->|Hne].
    + cbn. by rewrite filter_absent.
    + apply elem_of_cons in Hin as [->|Hin]; [done|]. by apply IH.
Qed.

Lemma check_support_supported n event :
  event ∈ state.__supported_events n → state.__check_support n event = None.
Proof. intros Hin. unfold state.__check_support. by rewrite bool_decide_eq_true_2. Qed.

Lemma check_support_unsupported n event :
  event ∉ state.__supported_events n →
  state.__check_support n event
  = Some (TypeError (state.unsupported_message (state.class_name n) event)).
Proof. intros Hin. unfold state.__check_support. by rewrite bool_decide_eq_false_2. Qed.

(** What [register] does for a supported event, in one step. *)
Lemma register_supported n event callbacks :
  event ∈ state.__supported_events n →
  state.register n event callbacks
  = state.mkOutcome
      (state.mkNotifier (state.class_name n)
         (<[event := state.register_loop
                       (default [] (state.__callbacks n !! event)) callbacks]>
            (state.__callbacks n))
         (state.__supported_events n))
      [] (Ok ()).
Proof.
  intros Hin. unfold state.register. rewrite check_support_supported by done.
  do 2 f_equal. case_bool_decide as Hsome; cbn; [done|].
  rewrite lookup_insert_eq, insert_insert_eq.
  destruct (state.__callbacks n !! event) eqn:E; [|done].
  exfalso. apply Hsome. eauto.
Qed.

(** Filtering commutes with keeping the first occurrences. *)
Lemma first_occurrences_filter (P : state.callback → Prop)
    `{∀ x, Decision (P x)} (l : list state.callback) :
  spec.first_occurrences (filter P l) = filter P (spec.first_occurrences l).
Proof.
  induction l as [|y l IH]; [done|]. cbn [spec.first_occurrences].
  destruct (decide (P y)) as [Hy|Hy].
  - rewrite filter_cons_True by done. cbn [spec.first_occurrences].
    rewrite filter_cons_True by done. rewrite IH. f_equal.
    rewrite !list_filter_filter. apply list_filter_iff. intros x. tauto.
  - rewrite !filter_cons_False by done. rewrite IH.
    rewrite list_filter_filter. apply list_filter_iff. intros x.
    split; [|tauto]. intros Hx. split; [done|]. by intros ->.
Qed.

(** The loop of [register] appends, in the order given, the first
    occurrence of every callback that is not registered yet. *)
Lemma register_loop_exact registered callbacks :
  state.register_loop registered callbacks
  = registered
    ++ spec.first_occurrences (filter (λ x, x ∉ registered) callbacks).
Proof.
  revert registered. unfold state.register_loop.
  induction callbacks as [|cb callbacks IH]; intros registered.
  - cbn. by rewrite app_nil_r.
  - cbn [foldl]. rewrite IH. destruct (decide (cb ∈ registered)) as [Hin|Hnotin].
    + rewrite bool_decide_eq_true_2 by done. cbn [negb].
      rewrite (filter_cons_False _ cb) by (intros H; by apply H). done.
    + rewrite bool_decide_eq_false_2 by done. cbn [negb].
      rewrite (filter_cons_True _ cb) by done. cbn [spec.first_occurrences].
      rewrite <- app_assoc. cbn [app]. do 2 f_equal.
      rewrite <- first_occurrences_filter. f_equal.
      rewrite list_filter_filter. apply list_filter_iff. intros x.
      rewrite not_elem_of_app, list_elem_of_singleton. tauto.
Qed.

Lemma drop_lookup (l : list state.callback) i cb :
  l !! i = Some cb → drop i l = cb :: drop (S i) l.
Proof.
  revert i. induction l as [|x l IH]; intros [|i]; cbn; try done.
  - by intros [= ->].
  - apply IH.
Qed.

Section notifying.
Context {W : Type}.
Context (run : state.callback → W → state.CallbackNotifier
               → W * state.CallbackNotifier * option exn).

(** With quiet callbacks the loop of [_notify] calls the rest of the
    list, in order, and ends. *)
Lemma notify_loop_quiet event l fuel : ∀ i w self inv,
  spec.quiet run event l →
  state.__callbacks self !! event = Some l →
  (length l - i < fuel)%nat →
  ∃ w' self',
    state.notify_loop run fuel event i w self inv
    = Some (w', state.mkOutcome self' (inv ++ drop i l) (Ok ()))
    ∧ state.__callbacks self' !! event = Some l.
Proof.
  induction fuel as [|fuel IH]; intros i w self inv Hquiet Hl Hfuel; [lia|].
  cbn [state.notify_loop]. rewrite Hl. change (default [] (Some l)) with l.
  destruct (l !! i) as [cb|] eqn:Hi.
  - destruct (Hquiet cb w self) as [Hnone Hsame];
      [by eapply list_elem_of_lookup_2|].
    destruct (run cb w self) as [[w1 self1] r]. cbn in Hnone, Hsame. subst r.
    cbv beta iota. apply lookup_lt_Some in Hi as Hlt.
    destruct (IH (S i) w1 self1 (inv ++ [cb]) Hquiet) as (w' & self' & -> & Hl');
      [by rewrite Hsame|lia|].
    exists w', self'. split; [|done].
    by rewrite (drop_lookup l i cb Hi), <- app_assoc.
  - exists w, self. split; [|done].
    apply lookup_ge_None in Hi. by rewrite drop_ge, app_nil_r.
Qed.

(** A notification with quiet callbacks calls the registered callbacks,
    each once, in the order of the list. *)
Lemma notify_quiet event l fuel w self :
  spec.quiet run event l →
  event ∈ state.__supported_events self →
  state.__callbacks self !! event = Some l →
  (length l < fuel)%nat →
  ∃ w' self', state._notify run fuel w self event
              = Some (w', state.mkOutcome self' l (Ok ())).
Proof.
  intros Hquiet Hsup Hl Hfuel. unfold state._notify.
  rewrite check_support_supported by done. rewrite Hl.
  destruct (notify_loop_quiet event l fuel 0 w self [] Hquiet Hl)
    as (w' & self' & -> & _); [lia|].
  exists w', self'. by rewrite drop_0.
Qed.

(** When a callback raises, the callbacks after it are not called. *)
Lemma notify_loop_raise event before cb after e fuel : ∀ i w self inv,
  spec.quiet run event before →
  (∀ w s, (run cb w s).2 = Some e) →
  state.__callbacks self !! event = Some (before ++ cb :: after) →
  (i ≤ length before)%nat →
  (length before - i < fuel)%nat →
  ∃ w' self',
    state.notify_loop run fuel event i w self inv
    = Some (w', state.mkOutcome self' (inv ++ drop i before ++ [cb]) (Raise e)).
Proof.
  induction fuel as [|fuel IH]; intros i w self inv Hquiet Hraise Hl Hi Hfuel; [lia|].
  cbn [state.notify_loop]. rewrite Hl.
  change (default [] (Some (before ++ cb :: after))) with (before ++ cb :: after).
  destruct (decide (i = length before)) as [->|Hne].
  - rewrite list_lookup_middle by done.
    pose proof (Hraise w self) as Hr.
    destruct (run cb w self) as [[w1 self1] r]. cbn in Hr. subst r.
    cbv beta iota. exists w1, self1. by rewrite drop_all.
  - assert (i < length before)%nat as Hlt by lia.
    destruct (lookup_lt_is_Some_2 before i Hlt) as [x Hx].
    rewrite lookup_app_l by done. rewrite Hx.
    destruct (Hquiet x w self) as [Hnone Hsame];
      [by eapply list_elem_of_lookup_2|].
    destruct (run x w self) as [[w1 self1] r]. cbn in Hnone, Hsame. subst r.
    cbv beta iota.
    destruct (IH (S i) w1 self1 (inv ++ [x]) Hquiet Hraise) as (w' & self' & ->);
      [by rewrite Hsame|lia|lia|].
    exists w', self'.
    by rewrite (drop_lookup before i x Hx), <- !app_assoc.
Qed.
End notifying.

(** C8 (as amended): on a notifier reached through its methods,
    registering callbacks for a supported event succeeds; the event's
    list is then its former content followed by the first occurrence,
    in the order given, of every callback that was not in it, so it
    holds each registered callback exactly once; registering the same
    callbacks again changes nothing; and when the callbacks of the list
    neither raise nor change the list of the event while they run, a
    notify that follows calls the list in order, each registered
    callback exactly once. *)
Theorem C8_register_idempotent {W : Type}
    (run : state.callback → W → state.CallbackNotifier
           → W * state.CallbackNotifier * option exn)
    n event callbacks cb :
  spec.reachable n →
  event ∈ state.__supported_events n →
  cb ∈ callbacks →
  let n' := state.self_after (state.register n event callbacks) in
  let old := default [] (state.__callbacks n !! event) in
  state.ended (state.register n event callbacks) = Ok ()
  ∧ ∃ registered',
      state.__callbacks n' !! event = Some registered'
      ∧ registered'
        = old ++ spec.first_occurrences (filter (λ x, x ∉ old) callbacks)
      ∧ length (filter (λ x, x = cb) registered') = 1%nat
      ∧ state.register n' event callbacks = state.mkOutcome n' [] (Ok ())
      ∧ ∀ fuel w,
          spec.quiet run event registered' →
          (length registered' < fuel)%nat →
          ∃ w' self',
            state._notify run fuel w n' event
            = Some (w', state.mkOutcome self' registered' (Ok ())).
Proof.
  intros Hreach Hsup Hcb n' old. subst n'.
  rewrite (register_supported n event callbacks Hsup). cbn.
  split; [done|]. fold old.
  assert (NoDup old) as Hold.
  { subst old. destruct (state.__callbacks n !! event) as [l|] eqn:E; cbn.
    - by eapply reachable_NoDup.
    - apply NoDup_nil_2. }
  destruct (register_loop_spec old callbacks Hold) as (Hnodup & Hprefix & Hin).
  set (new := state.register_loop old callbacks) in *.
  assert (cb ∈ new) as Hnew by (apply Hin; by right).
  exists new. rewrite lookup_insert_eq.
  split; [done|]. split; [apply register_loop_exact|].
  split; [by apply NoDup_occurs_once|].
  split.
  { rewrite register_supported by done. cbn.
    rewrite lookup_insert_eq, insert_insert_eq. cbn.
    rewrite register_loop_present; [done|].
    intros x Hx. apply Hin. by right. }
  intros fuel w Hquiet Hfuel.
  apply (notify_quiet run event new fuel w); [done|done| |done].
  cbn. by rewrite lookup_insert_eq.
Qed.

(** One callback given twice in a single call, on a fresh notifier, with
    callbacks that do nothing: the list is [7; 3] and the notify that
    follows calls 7 and 3, once each. *)
Lemma C8_register_idempotent_witness :
  let n := state.init "SelectionState" ["changed"; "cleared"] in
  let n' := state.self_after (state.register n "changed" [7; 3; 7]%nat) in
  state.ended (state.register n "changed" [7; 3; 7]%nat) = Ok ()
  ∧ state.__callbacks n' !! "changed" = Some [7; 3]%nat
  ∧ length (filter (λ x, x = 7%nat) [7; 3]%nat) = 1%nat
  ∧ state.register n' "changed" [7; 3; 7]%nat = state.mkOutcome n' [] (Ok ())
  ∧ ∃ w' self',
      state._notify samples.do_nothing 3 () n' "changed"
      = Some (w', state.mkOutcome self' [7; 3]%nat (Ok ())).
Proof.
  intros n n'.
  destruct (C8_register_idempotent samples.do_nothing n "changed" [7; 3; 7]%nat 7%nat)
    as (Hended & registered' & Hlist & Hexact & Honce & Hagain & Hnotify).
  - apply spec.reachable_init.
  - apply list_elem_of_here.
  - apply list_elem_of_here.
  - assert (registered' = [7; 3]%nat) as -> by (rewrite Hexact; vm_compute; reflexivity).
    split; [exact Hended|]. split; [exact Hlist|]. split; [exact Honce|].
    split; [exact Hagain|].
    apply (Hnotify 3%nat ()); [by intros cb w self _|cbn; lia].
Defined.

(** C8 (counterexample to the claim as first stated): callback 2 is
    registered twice after callback 1, and callback 1 raises when it is
    called; the notify that follows calls callback 1 only, so callback 2,
    though registered, is called not once but never. *)
Lemma C8_raising_callback_ends_notify :
  let n := state.self_after
             (state.register (state.init "SelectionState" ["changed"])
                "changed" [1; 2; 2]%nat) in
  state.__callbacks n !! "changed" = Some [1; 2]%nat
  ∧ state._notify samples.first_raises 5 () n "changed"
    = Some ((), state.mkOutcome n [1%nat] (Raise (TypeError "callback failed")))
  ∧ length (filter (λ x, x = 2%nat) [1%nat]) ≠ 1%nat.
Proof. intros n. repeat split; vm_compute; congruence.
Qed.

(** A callback that unregisters itself while it is called moves the
    callbacks after it one place down the list that the loop is reading,
    and the next one is passed over. *)
Lemma notify_reads_the_live_list :
  let n := state.self_after
             (state.register (state.init "SelectionState" ["changed"])
                "changed" [1; 2; 3]%nat) in
  ∃ self',
    state._notify samples.first_leaves 5 () n "changed"
    = Some ((), state.mkOutcome self' [1; 3]%nat (Ok ()))
    ∧ state.__callbacks self' !! "changed" = Some [2; 3]%nat.
Proof. intros n. eexists. split; vm_compute; reflexivity.
Qed.

(** C9: for an event outside the supported ones, each of register,
    unregister and notify raises the TypeError whose message is made of
    the class name and the event name, leaves the notifier as it was and
    invokes no callback. *)
Theorem C9_unsupported_event_rejected {W : Type}
    (run : state.callback → W → state.CallbackNotifier
           → W * state.CallbackNotifier * option exn)
    (fuel : nat) (w : W) n event callbacks :
  event ∉ state.__supported_events n →
  let e := TypeError (state.class_name n +:+ " does not support an event named "
                        +:+ inputs.dq +:+ event +:+ inputs.dq +:+ "!") in
  state.register n event callbacks = state.mkOutcome n [] (Raise e)
  ∧ state.unregister n event callbacks = state.mkOutcome n [] (Raise e)
  ∧ state._notify run fuel w n event = Some (w, state.mkOutcome n [] (Raise e)).
Proof.
  intros Hnotin e.
  unfold state.register, state.unregister, state._notify.
  by rewrite check_support_unsupported.
Qed.

(** A notifier that supports one event, asked about another. *)
Lemma C9_unsupported_event_rejected_witness :
  let n := state.init "SelectionState" ["changed"] in
  let e := TypeError ("SelectionState does not support an event named "
                        +:+ inputs.dq +:+ "closed" +:+ inputs.dq +:+ "!") in
  state.register n "closed" [5]%nat = state.mkOutcome n [] (Raise e)
  ∧ state.unregister n "closed" [1]%nat = state.mkOutcome n [] (Raise e)
  ∧ state._notify samples.first_raises 0 () n "closed"
    = Some ((), state.mkOutcome n [] (Raise e)).
Proof.
  intros n.
  assert ("closed" ∉ state.__supported_events n) as Hnotin.
  { cbn. apply not_elem_of_cons. split; [discriminate|apply not_elem_of_nil]. }
  pose proof (C9_unsupported_event_rejected samples.first_raises 0 () n "closed") as H.
  split; [|split].
  - apply (H [5]%nat Hnotin).
  - apply (H [1]%nat Hnotin).
  - apply (H [] Hnotin).
Defined.

(** ** Control.edit *)

Section thunking.
Context (iteritems : gmap string gui.value → list (string * gui.value)).
Context (cell : nat).

Local Abbreviation step := (gui.thunk_step cell).

(** A flag already rebound to the lambda of this frame stays so. *)
Lemma thunk_fold_keeps items st k :
  st.1 !! k = Some (gui.VLambda cell) →
  (foldl step st items).1 !! k = Some (gui.VLambda cell).
Proof.
  revert st. induction items as [|[flag v] items IH]; intros st Hk; [done|].
  cbn [foldl]. apply IH. cbn.
  destruct (gui.is_command_flag flag && gui.callable v); [|done].
  destruct (decide (flag = k)) as [->|Hne].
  - by rewrite lookup_insert_eq.
  - by rewrite lookup_insert_ne.
Qed.

(** Every callable command flag the loop meets is rebound to the lambda
    of this frame. *)
Lemma thunk_fold_wraps items st k v :
  (k, v) ∈ items →
  gui.is_command_flag k = true → gui.callable v = true →
  (foldl step st items).1 !! k = Some (gui.VLambda cell).
Proof.
  intros Hin Hcmd Hcall. revert st.
  induction items as [|[flag w] items IH]; intros st.
  - by apply elem_of_nil in Hin.
  - cbn [foldl]. apply elem_of_cons in Hin as [[= <- <-]|Hin].
    + apply thunk_fold_keeps. cbn. rewrite Hcmd, Hcall. cbn.
      by rewrite lookup_insert_eq.
    + by apply IH.
Qed.

(** When the loop ends, the frame's variable holds the value of the item
    met last. *)
Lemma thunk_fold_binding items st item :
  (foldl step st (items ++ [item])).2 = Some item.2.
Proof. rewrite foldl_app. cbn. by destruct item. Qed.
End thunking.

(** C2 (the code departs from the claim): whatever the order in which the
    dictionary is iterated, two command flags that carry two different
    callbacks are both rebound to lambdas of one frame, which read the
    same variable when the host calls them: the two wrappers run the same
    thing, so they cannot each run the callback of their own flag. *)
Theorem C2_wrappers_share_one_variable
    (iteritems : gmap string gui.value → list (string * gui.value))
    (flags : gmap string gui.value) (σ : gui.frames)
    (k1 k2 : string) (f1 f2 : nat) :
  (∀ d, iteritems d ≡ₚ map_to_list d) →
  flags !! k1 = Some (gui.VFunction f1) →
  flags !! k2 = Some (gui.VFunction f2) →
  gui.is_command_flag k1 = true →
  gui.is_command_flag k2 = true →
  f1 ≠ f2 →
  let flags' := (gui.edit iteritems flags σ).1 in
  let σ' := (gui.edit iteritems flags σ).2 in
  flags' !! k1 = Some (gui.VLambda (length σ))
  ∧ flags' !! k2 = Some (gui.VLambda (length σ))
  ∧ (∃ last, last ∈ iteritems (<["edit" := gui.VBool true]> flags)
             ∧ gui.call1 σ' (gui.VLambda (length σ)) = gui.call0 last.2)
  ∧ ¬ (gui.call1 σ' (gui.VLambda (length σ)) = Ok [f1]
       ∧ gui.call1 σ' (gui.VLambda (length σ)) = Ok [f2]).
Proof.
  intros Hperm Hk1 Hk2 Hc1 Hc2 Hne flags' σ'.
  subst flags' σ'. unfold gui.edit, gui.thunk_commands.
  set (flags0 := <["edit" := gui.VBool true]> flags).
  assert (∀ k f, flags !! k = Some (gui.VFunction f) →
                 gui.is_command_flag k = true →
                 (k, gui.VFunction f) ∈ iteritems flags0) as Hitems.
  { intros k f Hk Hc. rewrite Hperm. apply elem_of_map_to_list.
    subst flags0. rewrite lookup_insert_ne; [done|].
    intros <-. by vm_compute in Hc. }
  destruct (foldl _ _ _) as [flags1 binding] eqn:Hfold.
  assert (flags1 = (foldl (gui.thunk_step (length σ)) (flags0, None)
                      (iteritems flags0)).1) as -> by (by rewrite Hfold).
  assert (binding = (foldl (gui.thunk_step (length σ)) (flags0, None)
                       (iteritems flags0)).2) as Hbinding by (by rewrite Hfold).
  cbn [fst snd].
  split; [by eapply thunk_fold_wraps; [apply (Hitems k1 f1)|..]|].
  split; [by eapply thunk_fold_wraps; [apply (Hitems k2 f2)|..]|].
  split; [|intros [H1 H2]; rewrite H1 in H2; by injection H2].
  assert (∃ items item, iteritems flags0 = items ++ [item])
    as (items & item & Hlist).
  { specialize (Hitems k1 f1 Hk1 Hc1).
    destruct (iteritems flags0) as [|item items _] using rev_ind; [|by eauto].
    by apply elem_of_nil in Hitems. }
  rewrite Hlist in *. rewrite thunk_fold_binding in Hbinding. subst binding.
  exists item. split; [apply elem_of_app; right; apply list_elem_of_here|].
  unfold gui.call1. by rewrite list_lookup_middle.
Qed.

(** Two command flags with the callbacks 0 and 1, iterated in the order
    of [map_to_list]. *)
Lemma C2_wrappers_share_one_variable_witness :
  let flags : gmap string gui.value :=
    <["command" := gui.VFunction 0]> (<["changeCommand" := gui.VFunction 1]> ∅) in
  let flags' := (gui.edit map_to_list flags []).1 in
  let σ' := (gui.edit map_to_list flags []).2 in
  flags' !! "command" = Some (gui.VLambda 0)
  ∧ flags' !! "changeCommand" = Some (gui.VLambda 0)
  ∧ (∃ last, last ∈ map_to_list (<["edit" := gui.VBool true]> flags)
             ∧ gui.call1 σ' (gui.VLambda 0) = gui.call0 last.2)
  ∧ ¬ (gui.call1 σ' (gui.VLambda 0) = Ok [0%nat]
       ∧ gui.call1 σ' (gui.VLambda 0) = Ok [1%nat]).
Proof.
  intros flags.
  apply (C2_wrappers_share_one_variable map_to_list flags [] "command"
           "changeCommand" 0 1).
  - reflexivity.
  - apply lookup_insert_eq.
  - subst flags. rewrite lookup_insert_ne by discriminate. apply lookup_insert_eq.
  - vm_compute. reflexivity.
  - vm_compute. reflexivity.
  - discriminate.
Defined.

(** ** The regular-expression matcher *)

Lemma take_app_length (x y : string) : Py.take (String.length x) (x +:+ y) = x.
Proof.
  induction x as [|c x IH]; cbn.
  - by destruct y.
  - rewrite app_String. by rewrite IH.
Qed.

Lemma consumed_app (x y : string) : Re.consumed (x +:+ y) y = x.
Proof.
  unfold Re.consumed. rewrite length_app_str.
  replace (String.length x + String.length y - String.length y)%nat
    with (String.length x) by lia.
  apply take_app_length.
Qed.

Lemma startswith_app (p s : string) :
  Py.startswith p s = true → ∃ t, s = p +:+ t.
Proof.
  revert s. induction p as [|a p IH]; intros s H.
  - by exists s.
  - destruct s as [|b s]; [done|]. cbn in H.
    apply andb_true_iff in H as [Hab Hps]. apply Ascii.eqb_eq in Hab as ->.
    destruct (IH s Hps) as [t ->]. by exists t.
Qed.

Lemma startswith_app_true (p t : string) : Py.startswith p (p +:+ t) = true.
Proof.
  induction p as [|a p IH]; [done|]. rewrite app_String. cbn.
  by rewrite Ascii.eqb_refl, IH.
Qed.

Section matcher_facts.
Context {R : Type}.
Implicit Types (k : string → option string → option R).

(** A literal text matches exactly when the subject starts with it. *)
Lemma rmatch_lits_Some p s g k x :
  Re.rmatch (Re.lits p) s g k = Some x →
  ∃ t, s = p +:+ t ∧ k t g = Some x.
Proof.
  revert s. induction p as [|a p IH]; intros s H; cbn in H.
  - by exists s.
  - destruct s as [|b s]; [done|].
    destruct (Ascii.eqb a b) eqn:E; [|done]. apply Ascii.eqb_eq in E as ->.
    destruct (IH s H) as (t & -> & Ht). by exists t.
Qed.

Lemma rmatch_lits_app p t g k :
  Re.rmatch (Re.lits p) (p +:+ t) g k = k t g.
Proof.
  induction p as [|a p IH]; [done|]. rewrite app_String. cbn.
  by rewrite Ascii.eqb_refl.
Qed.

(** An optional literal character: what is consumed is that character or
    nothing. *)
Lemma rmatch_opt_lit_Some c s g k x :
  Re.rmatch (Re.Opt (Re.Lit c)) s g k = Some x →
  ∃ q t, s = q +:+ t ∧ (q = EmptyString ∨ q = Py.str1 c) ∧ k t g = Some x.
Proof.
  cbn. destruct s as [|b s].
  - intros H. exists EmptyString, EmptyString. eauto.
  - destruct (Ascii.eqb c b) eqn:E.
    + apply Ascii.eqb_eq in E as <-.
      destruct (k s g) as [y|] eqn:Hk.
      * intros [= <-]. exists (Py.str1 c), s. eauto.
      * intros H. exists EmptyString, (String c s). eauto.
    + intros H. exists EmptyString, (String b s). eauto.
Qed.

(** With a continuation that cannot fail, the greedy star takes the whole
    run of the class. *)
Lemma star_greedy cls s (K : string → option R) x :
  (∀ t, is_Some (K t)) →
  Re.star cls s K = Some x →
  ∃ w rest, s = w +:+ rest ∧ spec.all_chars cls w = true
            ∧ spec.head_in cls rest = false ∧ K rest = Some x.
Proof.
  intros Htotal. induction s as [|c s IH]; cbn.
  - intros H. by exists EmptyString, EmptyString.
  - destruct (cls c) eqn:Hc.
    + destruct (Re.star cls s K) as [y|] eqn:Hstar.
      * intros [= <-]. destruct (IH eq_refl) as (w & rest & -> & Hw & Hrest & HK).
        exists (String c w), rest. cbn. by rewrite Hc.
      * exfalso. clear -Htotal Hstar.
        induction s as [|c' s IH]; cbn in Hstar.
        -- destruct (Htotal EmptyString) as [y Hy]. congruence.
        -- destruct (cls c').
           ++ destruct (Re.star cls s K); [done|]. by apply IH.
           ++ destruct (Htotal (String c' s)) as [y Hy]. congruence.
    + intros H. exists EmptyString, (String c s). cbn. by rewrite Hc.
Qed.

Lemma plus_greedy cls s (K : string → option R) x :
  (∀ t, is_Some (K t)) →
  Re.plus cls s K = Some x →
  ∃ w rest, s = w +:+ rest ∧ w ≠ EmptyString ∧ spec.all_chars cls w = true
            ∧ spec.head_in cls rest = false ∧ K rest = Some x.
Proof.
  intros Htotal. destruct s as [|c s]; cbn; [done|].
  destruct (cls c) eqn:Hc; [|done]. intros H.
  destruct (star_greedy cls s K x Htotal H) as (w & rest & -> & Hw & Hrest & HK).
  exists (String c w), rest. cbn. by rewrite Hc.
Qed.

Lemma star_run cls w rest (K : string → option R) :
  (∀ t, is_Some (K t)) →
  spec.all_chars cls w = true → spec.head_in cls rest = false →
  Re.star cls (w +:+ rest) K = K rest.
Proof.
  intros Htotal Hw Hrest. induction w as [|c w IH].
  - rewrite app_empty_l. destruct rest as [|c rest]; [done|].
    cbn in *. by rewrite Hrest.
  - cbn in Hw. apply andb_true_iff in Hw as [Hc Hw].
    rewrite app_String. cbn. rewrite Hc, (IH Hw).
    by destruct (Htotal rest) as [y ->].
Qed.

Lemma plus_run cls w rest (K : string → option R) :
  (∀ t, is_Some (K t)) →
  w ≠ EmptyString →
  spec.all_chars cls w = true → spec.head_in cls rest = false →
  Re.plus cls (w +:+ rest) K = K rest.
Proof.
  intros Htotal Hne Hw Hrest. destruct w as [|c w]; [done|].
  cbn in Hw. apply andb_true_iff in Hw as [Hc Hw].
  rewrite app_String. cbn. rewrite Hc. by apply star_run.
Qed.
End matcher_facts.

Section equations.
Context {R : Type}.
Implicit Types (k : string → option string → option R).

Lemma rmatch_Cat r1 r2 s g k :
  Re.rmatch (Re.Cat r1 r2) s g k
  = Re.rmatch r1 s g (λ s' g', Re.rmatch r2 s' g' k).
Proof. reflexivity. Qed.

Lemma rmatch_Opt r s g k :
  Re.rmatch (Re.Opt r) s g k
  = match Re.rmatch r s g k with
    | Some x => Some x
    | None => k s g
    end.
Proof. reflexivity. Qed.

Lemma rmatch_Lit_same c t g k : Re.rmatch (Re.Lit c) (String c t) g k = k t g.
Proof. cbn. by rewrite Ascii.eqb_refl. Qed.

Lemma rmatch_Lit_other c b t g k :
  Ascii.eqb c b = false → Re.rmatch (Re.Lit c) (String b t) g k = None.
Proof. cbn. by intros ->. Qed.

Lemma rmatch_lits_other a p b t g k :
  Ascii.eqb a b = false →
  Re.rmatch (Re.lits (String a p)) (String b t) g k = None.
Proof. cbn. by intros ->. Qed.

Lemma rmatch_Group_Plus cls s g k :
  Re.rmatch (Re.Group (Re.Plus cls)) s g k
  = Re.plus cls s (λ s', k s' (Some (Re.consumed s s'))).
Proof. reflexivity. Qed.

Lemma rmatch_lit_Some c s g k x :
  Re.rmatch (Re.Lit c) s g k = Some x → ∃ t, s = String c t ∧ k t g = Some x.
Proof.
  cbn. destruct s as [|b s]; [done|].
  destruct (Ascii.eqb c b) eqn:E; [|done]. apply Ascii.eqb_eq in E as ->. eauto.
Qed.

Lemma rmatch_opt_lits_Some p s g k x :
  Re.rmatch (Re.Opt (Re.lits p)) s g k = Some x →
  ∃ flag t, s = flag +:+ t ∧ (flag = EmptyString ∨ flag = p) ∧ k t g = Some x.
Proof.
  cbn [Re.rmatch].
  destruct (Re.rmatch (Re.lits p) s g k) as [y|] eqn:E.
  - intros [= <-]. apply rmatch_lits_Some in E as (t & -> & Ht).
    exists p, t. eauto.
  - intros H. exists EmptyString, s. eauto.
Qed.

(** An optional regex followed by something that cannot fail does not
    fail. *)
Lemma rmatch_opt_total r s g k :
  (∀ t g', is_Some (k t g')) → is_Some (Re.rmatch (Re.Opt r) s g k).
Proof.
  intros Htotal. cbn [Re.rmatch].
  destruct (Re.rmatch r s g k); [done|apply Htotal].
Qed.

(** The end of the pattern, an optional quote and an optional space,
    never fails. *)
Lemma rmatch_tail_total s g k :
  (∀ t g', is_Some (k t g')) →
  is_Some (Re.rmatch (Re.Cat (Re.Opt (Re.Lit Py.DQUOTE)) (Re.Opt (Re.Lit Py.SPACE)))
             s g k).
Proof.
  intros Htotal. rewrite rmatch_Cat. apply rmatch_opt_total.
  intros t g'. by apply rmatch_opt_total.
Qed.
End equations.

(** A match of the parent pattern at the start of [s], read off the
    subject: the flag, the optional quote, the whole run [w] of letters,
    digits and underscores, and an optional quote and space after it. *)
Lemma match_at_parent_Some i s m :
  Re.match_at gui.parent_name_pattern i s = Some m →
  ∃ flag quote w u s'',
    s = " -p" +:+ flag +:+ " " +:+ quote +:+ w +:+ u +:+ s''
    ∧ (flag = EmptyString ∨ flag = "arent")
    ∧ (quote = EmptyString ∨ quote = Py.str1 Py.DQUOTE)
    ∧ w ≠ EmptyString
    ∧ spec.all_chars Re.word_char w = true
    ∧ spec.head_in Re.word_char (u +:+ s'') = false
    ∧ m = Re.MatchObject i (" -p" +:+ flag +:+ " " +:+ quote +:+ w +:+ u) (Some w).
Proof.
  unfold Re.match_at, gui.parent_name_pattern. intros H.
  rewrite rmatch_Cat in H.
  apply rmatch_lits_Some in H as (t0 & Hs & H). cbn beta in H.
  rewrite rmatch_Cat in H.
  apply rmatch_opt_lits_Some in H as (flag & t1 & -> & Hflag & H). cbn beta in H.
  rewrite rmatch_Cat in H.
  apply rmatch_lit_Some in H as (t2 & -> & H). cbn beta in H.
  rewrite rmatch_Cat in H.
  apply rmatch_opt_lit_Some in H as (quote & t3 & -> & Hquote & H). cbn beta in H.
  rewrite rmatch_Cat, rmatch_Group_Plus in H.
  apply plus_greedy in H as (w & rest & -> & Hw & Hall & Hrest & H);
    [|intros t; by apply rmatch_tail_total].
  rewrite consumed_app in H. rewrite rmatch_Cat in H.
  apply rmatch_opt_lit_Some in H as (u1 & t4 & -> & Hu1 & H). cbn beta in H.
  apply rmatch_opt_lit_Some in H as (u2 & s'' & -> & Hu2 & H).
  injection H as <-.
  exists flag, quote, w, (u1 +:+ u2), s''.
  assert (s = (" -p" +:+ flag +:+ " " +:+ quote +:+ w +:+ u1 +:+ u2) +:+ s'')
    as Hs'.
  { rewrite Hs. rewrite !app_assoc_str. reflexivity. }
  split; [by rewrite Hs', !app_assoc_str|].
  split; [done|]. split; [done|]. split; [done|]. split; [done|].
  split; [by rewrite app_assoc_str|].
  rewrite Hs'. by rewrite consumed_app.
Qed.

Lemma word_char_not_quote c : Re.word_char c = true → Ascii.eqb Py.DQUOTE c = false.
Proof.
  intros Hc. destruct (Ascii.eqb Py.DQUOTE c) eqn:E; [|done].
  apply Ascii.eqb_eq in E as <-. by vm_compute in Hc.
Qed.

(** After the run [w], the rest of the pattern succeeds and group 1 is
    [w]. *)
Lemma match_tail_result i s0 rest w :
  ∃ m, Re.rmatch (Re.Cat (Re.Opt (Re.Lit Py.DQUOTE)) (Re.Opt (Re.Lit Py.SPACE)))
         rest (Some w) (λ s' g, Some (Re.MatchObject i (Re.consumed s0 s') g))
       = Some m
       ∧ Re.group1 m = Some w.
Proof.
  destruct (rmatch_tail_total rest (Some w)
              (λ s' g, Some (Re.MatchObject i (Re.consumed s0 s') g)))
    as [m Hm]; [done|].
  exists m. split; [done|]. rewrite rmatch_Cat in Hm.
  apply rmatch_opt_lit_Some in Hm as (u1 & t1 & -> & _ & Hm). cbn beta in Hm.
  apply rmatch_opt_lit_Some in Hm as (u2 & t2 & -> & _ & Hm).
  by injection Hm as <-.
Qed.

(** Wherever the subject opens with an explicit parent flag, the pattern
    matches there and captures the run [w]. *)
Lemma match_at_parent_complete i s w :
  spec.explicit_parent_at s w →
  ∃ m, Re.match_at gui.parent_name_pattern i s = Some m ∧ Re.group1 m = Some w.
Proof.
  intros (flag & quote & rest & Hs & Hflag & Hquote & Hne & Hall & Hrest).
  unfold Re.match_at, gui.parent_name_pattern.
  set (kf := λ s' g, Some (Re.MatchObject i (Re.consumed s s') g)).
  set (core := Re.Cat (Re.Lit Py.SPACE) _).
  assert (∃ m, Re.rmatch core (" " +:+ quote +:+ w +:+ rest) None kf = Some m
               ∧ Re.group1 m = Some w) as (m & Hcore & Hgroup).
  { subst core. rewrite rmatch_Cat. rewrite app_String, app_empty_l.
    rewrite (rmatch_Lit_same Py.SPACE). rewrite rmatch_Cat.
    assert (∃ m, Re.rmatch (Re.Cat (Re.Group (Re.Plus Re.word_char))
                              (Re.Cat (Re.Opt (Re.Lit Py.DQUOTE))
                                 (Re.Opt (Re.Lit Py.SPACE))))
                   (w +:+ rest) None kf = Some m
                 ∧ Re.group1 m = Some w) as (m & Hrun & Hgroup).
    { rewrite rmatch_Cat, rmatch_Group_Plus.
      rewrite plus_run; [|intros t; by apply rmatch_tail_total|done..].
      rewrite consumed_app. apply match_tail_result. }
    exists m. split; [|done]. rewrite rmatch_Opt.
    destruct Hquote as [-> | ->].
    - rewrite app_empty_l. destruct w as [|c w']; [done|].
      rewrite app_String in *.
      cbn in Hall. apply andb_true_iff in Hall as [Hc _].
      by rewrite rmatch_Lit_other by (by apply word_char_not_quote).
    - unfold Py.str1. rewrite app_String, app_empty_l.
      rewrite rmatch_Lit_same. by rewrite Hrun. }
  exists m. split; [|done].
  rewrite Hs, rmatch_Cat, rmatch_lits_app. cbn beta. rewrite rmatch_Cat.
  fold core. rewrite rmatch_Opt. destruct Hflag as [-> | ->].
  - rewrite app_empty_l. rewrite app_String at 1.
    rewrite rmatch_lits_other by done. exact Hcore.
  - rewrite rmatch_lits_app. by rewrite Hcore.
Qed.

(** [re.search] returns a match that starts somewhere in the subject, and
    fails only when no offset has a match. *)
Lemma search_from_Some r i s m :
  Re.search_from r i s = Some m →
  ∃ before t, s = before +:+ t
              ∧ Re.match_at r (i + String.length before) t = Some m.
Proof.
  revert i. induction s as [|c s IH]; intros i; cbn [Re.search_from].
  - destruct (Re.match_at r i EmptyString) as [m'|] eqn:E; [|done].
    intros [= <-]. exists EmptyString, EmptyString. cbn.
    by rewrite Nat.add_0_r.
  - destruct (Re.match_at r i (String c s)) as [m'|] eqn:E.
    + intros [= <-]. exists EmptyString, (String c s). cbn.
      by rewrite Nat.add_0_r.
    + intros H. destruct (IH _ H) as (before & t & -> & Ht).
      exists (String c before), t. split; [done|]. cbn.
      by rewrite Nat.add_succ_r.
Qed.

Lemma search_from_None r i s :
  Re.search_from r i s = None →
  ∀ before t, s = before +:+ t →
              Re.match_at r (i + String.length before) t = None.
Proof.
  revert i. induction s as [|c s IH]; intros i; cbn [Re.search_from].
  - destruct (Re.match_at r i EmptyString) as [m'|] eqn:E; [done|].
    intros _ [|b before] t Heq; [|done]. rewrite app_empty_l in Heq.
    subst t. cbn. by rewrite Nat.add_0_r.
  - destruct (Re.match_at r i (String c s)) as [m'|] eqn:E; [done|].
    intros H [|b before] t Heq.
    + rewrite app_empty_l in Heq. subst t. cbn. by rewrite Nat.add_0_r.
    + rewrite app_String in Heq. injection Heq as -> ->.
      cbn. rewrite Nat.add_succ_r. by apply (IH (S i)).
Qed.

(** The command has an explicit parent flag somewhere. *)
Lemma search_parent_Some command m :
  Re.search gui.parent_name_pattern command = Some m →
  ∃ before s w, command = before +:+ s ∧ spec.explicit_parent_at s w
                ∧ Re.group1 m = Some w
                ∧ ∃ t, Re.group0 m = String Py.SPACE t.
Proof.
  intros H. apply search_from_Some in H as (before & s & -> & H).
  apply match_at_parent_Some in H
    as (flag & quote & w & u & s'' & -> & Hflag & Hquote & Hne & Hall & Hrest & ->).
  exists before, (" -p" +:+ flag +:+ " " +:+ quote +:+ w +:+ u +:+ s''), w.
  split; [done|]. split; [|split; [done|by eexists]].
  exists flag, quote, (u +:+ s''). done.
Qed.

Lemma search_parent_None command :
  Re.search gui.parent_name_pattern command = None
  ↔ ¬ ∃ before s w, command = before +:+ s ∧ spec.explicit_parent_at s w.
Proof.
  split.
  - intros Hnone (before & s & w & Heq & Hat).
    pose proof (search_from_None _ _ _ Hnone before s Heq) as Hhere.
    destruct (match_at_parent_complete (0 + String.length before) s w Hat)
      as (m & Hm & _).
    congruence.
  - intros Hno.
    destruct (Re.search gui.parent_name_pattern command) as [m|] eqn:E; [|done].
    exfalso. apply Hno.
    destruct (search_parent_Some command m E) as (before & s & w & ? & ? & _).
    eauto.
Qed.

(** The match returned by [re.search] is at the first offset that has
    one. *)
Lemma search_from_first r i s m :
  Re.search_from r i s = Some m →
  ∃ before t,
    s = before +:+ t
    ∧ Re.match_at r (i + String.length before) t = Some m
    ∧ ∀ before' t', s = before' +:+ t' →
        (String.length before' < String.length before)%nat →
        Re.match_at r (i + String.length before') t' = None.
Proof.
  revert i. induction s as [|c s IH]; intros i; cbn [Re.search_from].
  - destruct (Re.match_at r i EmptyString) as [m'|] eqn:E; [|done].
    intros [= <-]. exists EmptyString, EmptyString. cbn.
    rewrite Nat.add_0_r. split; [done|]. split; [done|]. intros ?? _ ?. lia.
  - destruct (Re.match_at r i (String c s)) as [m'|] eqn:E.
    + intros [= <-]. exists EmptyString, (String c s). cbn.
      rewrite Nat.add_0_r. split; [done|]. split; [done|]. intros ?? _ ?. lia.
    + intros H. destruct (IH _ H) as (before & t & -> & Ht & Hfirst).
      exists (String c before), t. split; [done|]. cbn [String.length].
      rewrite Nat.add_succ_r. split; [done|].
      intros [|b before'] t' Heq Hlt.
      * rewrite app_empty_l in Heq. subst t'. cbn. by rewrite Nat.add_0_r.
      * rewrite !app_String in Heq. injection Heq as -> Heq.
        cbn [String.length] in *. rewrite Nat.add_succ_r.
        apply (Hfirst before' t' Heq). lia.
Qed.

Lemma optional_char_split c s :
  s = reference.optional_char c s +:+ reference.after_optional c s.
Proof.
  destruct s as [|c' s]; [done|]. cbn.
  destruct (Ascii.eqb c c') eqn:E; [|done]. by apply Ascii.eqb_eq in E as ->.
Qed.

(** Before a continuation that cannot fail, an optional character is
    taken whenever it is there. *)
Lemma rmatch_opt_lit_greedy {R : Type} c s g
    (k : string → option string → option R) :
  (∀ t g', is_Some (k t g')) →
  Re.rmatch (Re.Opt (Re.Lit c)) s g k = k (reference.after_optional c s) g.
Proof.
  intros Htotal. rewrite rmatch_Opt. destruct s as [|c' s]; [done|].
  cbn [Re.rmatch reference.after_optional].
  destruct (Ascii.eqb c c'); [|done].
  by destruct (Htotal s g) as [x ->].
Qed.

(** A match of the parent pattern at the start of [s], in full. *)
Lemma match_at_parent_exact i s m :
  Re.match_at gui.parent_name_pattern i s = Some m →
  ∃ flag quote w rest,
    s = " -p" +:+ flag +:+ " " +:+ quote +:+ w +:+ rest
    ∧ (flag = EmptyString ∨ flag = "arent")
    ∧ (quote = EmptyString ∨ quote = Py.str1 Py.DQUOTE)
    ∧ w ≠ EmptyString
    ∧ spec.all_chars Re.word_char w = true
    ∧ spec.head_in Re.word_char rest = false
    ∧ m = Re.MatchObject i
            (" -p" +:+ flag +:+ " " +:+ quote +:+ w +:+ reference.trailer rest)
            (Some w).
Proof.
  unfold Re.match_at, gui.parent_name_pattern. intros H.
  rewrite rmatch_Cat in H.
  apply rmatch_lits_Some in H as (t0 & Hs & H). cbn beta in H.
  rewrite rmatch_Cat in H.
  apply rmatch_opt_lits_Some in H as (flag & t1 & -> & Hflag & H). cbn beta in H.
  rewrite rmatch_Cat in H.
  apply rmatch_lit_Some in H as (t2 & -> & H). cbn beta in H.
  rewrite rmatch_Cat in H.
  apply rmatch_opt_lit_Some in H as (quote & t3 & -> & Hquote & H). cbn beta in H.
  rewrite rmatch_Cat, rmatch_Group_Plus in H.
  apply plus_greedy in H as (w & rest & -> & Hw & Hall & Hrest & H);
    [|intros t; by apply rmatch_tail_total].
  rewrite consumed_app in H. rewrite rmatch_Cat in H.
  rewrite rmatch_opt_lit_greedy in H by (intros t g'; by apply rmatch_opt_total).
  rewrite rmatch_opt_lit_greedy in H by done.
  injection H as <-.
  exists flag, quote, w, rest.
  split; [by rewrite Hs|]. split; [done|]. split; [done|]. split; [done|].
  split; [done|]. split; [done|]. f_equal.
  set (s'' := reference.after_optional Py.SPACE
                (reference.after_optional Py.DQUOTE rest)).
  assert (rest = reference.trailer rest +:+ s'') as Hrest'.
  { unfold reference.trailer. rewrite app_assoc_str.
    rewrite <- (optional_char_split Py.SPACE).
    apply optional_char_split. }
  assert (s = (" -p" +:+ flag +:+ " " +:+ quote +:+ w +:+ reference.trailer rest)
              +:+ s'') as ->.
  { rewrite Hs, !app_assoc_str. cbn [String.append]. by rewrite <- Hrest'. }
  apply consumed_app.
Qed.

(** C10 (as amended): [Control.from_string] extracts an explicit parent
    exactly when the command contains a space, [-p] or [-parent], a space,
    an optional double quote and at least one letter, digit or
    underscore.  It then works at the leftmost such place: the parent is
    the whole run of such characters found there, whatever follows the
    run; and the text matched there, from the space before the flag up
    to the run and a double quote and a space that may follow it, is
    replaced by one space wherever the command holds it, before the
    command is split.  When the command contains no such place (so for a
    value that starts with another character, or a flag not followed by a
    space) nothing is extracted: the creation flags are all the tokens
    after the first, and the parent is the one inferred from the
    stack. *)
Theorem C10_explicit_parent_extraction (nm command : string)
    (inferred : option string) :
  (∀ m, Re.search gui.parent_name_pattern command = Some m →
     ∃ before flag quote w rest,
       command = before +:+ " -p" +:+ flag +:+ " " +:+ quote +:+ w +:+ rest
       ∧ (flag = EmptyString ∨ flag = "arent")
       ∧ (quote = EmptyString ∨ quote = Py.str1 Py.DQUOTE)
       ∧ w ≠ EmptyString
       ∧ spec.all_chars Re.word_char w = true
       ∧ spec.head_in Re.word_char rest = false
       ∧ (∀ before' s' w',
            command = before' +:+ s' → spec.explicit_parent_at s' w' →
            (String.length before ≤ String.length before')%nat)
       ∧ Re.start m = String.length before
       ∧ Re.group1 m = Some w
       ∧ Re.group0 m
         = " -p" +:+ flag +:+ " " +:+ quote +:+ w +:+ reference.trailer rest
       ∧ gui.Control_from_string nm command inferred
         = (let command' :=
              Py.replace
                (" -p" +:+ flag +:+ " " +:+ quote +:+ w +:+ reference.trailer rest)
                " " command in
            control_type ← gui.first_token (Py.split command');
            Ok (gui.mkControl nm control_type
                  (Py.join " " (tail (Py.split command'))) (Some w))))
  ∧ (Re.search gui.parent_name_pattern command = None
     ↔ ¬ ∃ before s w, command = before +:+ s ∧ spec.explicit_parent_at s w)
  ∧ (Re.search gui.parent_name_pattern command = None →
     gui.Control_from_string nm command inferred
     = (control_type ← gui.first_token (Py.split command);
        Ok (gui.mkControl nm control_type
              (Py.join " " (tail (Py.split command))) inferred))).
Proof.
  split; [|split].
  - intros m Hm.
    destruct (search_from_first _ _ _ _ Hm) as (before & s & Hcommand & Hat & Hfirst).
    cbn [Nat.add] in Hat.
    apply match_at_parent_exact in Hat
      as (flag & quote & w & rest & -> & Hflag & Hquote & Hne & Hall & Hrest & ->).
    exists before, flag, quote, w, rest.
    split; [done|]. split; [done|]. split; [done|]. split; [done|].
    split; [done|]. split; [done|]. split.
    { intros before' s' w' Heq Hplace.
      destruct (le_lt_dec (String.length before) (String.length before'))
        as [Hle|Hlt]; [done|].
      pose proof (Hfirst before' s' Heq Hlt) as Hnone.
      destruct (match_at_parent_complete (0 + String.length before') s' w' Hplace)
        as (m' & Hm' & _).
      congruence. }
    split; [done|]. split; [done|]. split; [done|].
    unfold gui.Control_from_string. by rewrite Hm.
  - apply search_parent_None.
  - intros Hnone. unfold gui.Control_from_string. by rewrite Hnone.
Qed.

(** The command [button -p a -p b]: the place used is the first one, the
    parent is [a], the text of the first flag with the space after it is
    replaced, and the second flag stays in the creation flags. *)
Lemma C10_explicit_parent_extraction_witness :
  ∃ before flag quote w rest,
    "button -p a -p b" = before +:+ " -p" +:+ flag +:+ " " +:+ quote +:+ w +:+ rest
    ∧ String.length before = 6%nat
    ∧ w = "a"
    ∧ Re.group0 (Re.MatchObject 6 " -p a " (Some "a"))
      = " -p" +:+ flag +:+ " " +:+ quote +:+ w +:+ reference.trailer rest
    ∧ gui.Control_from_string "ok" "button -p a -p b" None
      = Ok (gui.mkControl "ok" "button" "-p b" (Some "a")).
Proof.
  destruct (C10_explicit_parent_extraction "ok" "button -p a -p b" None)
    as (Hsome & _ & _).
  destruct (Hsome (Re.MatchObject 6 " -p a " (Some "a")))
    as (before & flag & quote & w & rest & Heq & _ & _ & _ & _ & _ & _
        & Hstart & Hgroup & Hzero & Hctl); [vm_compute; reflexivity|].
  exists before, flag, quote, w, rest. cbn in Hstart, Hgroup.
  injection Hgroup as <-.
  split; [done|]. split; [done|]. split; [done|]. split; [done|].
  rewrite Hctl, <- Hzero. vm_compute. reflexivity.
Defined.

(** C10 (counterexample to the claim as first stated): in the command
    [button -p my-parent] the value holds a hyphen, yet a parent is
    extracted, the letters before the hyphen; the flag does not stay in
    the creation flags, and the inferred parent (here none) is not
    used. *)
Lemma C10_hyphenated_value_is_split :
  ∃ c, gui.Control_from_string "btn2" "button -p my-parent" None = Ok c
       ∧ gui.parent_name c = Some "my"
       ∧ gui.creation_flags c = "-parent"
       ∧ gui.parent_name c ≠ None
       ∧ gui.creation_flags c ≠ "-p my-parent".
Proof.
  eexists. split; [vm_compute; reflexivity|]. cbn. repeat split; congruence.
Qed.

(** Values that do not start with a letter, digit or underscore, and
    flags without a space after them, are left in the creation flags. *)
Lemma Control_from_string_not_extracted :
  gui.Control_from_string "b" "button -p -top" (Some "w")
  = Ok (gui.mkControl "b" "button" "-p -top" (Some "w"))
  ∧ gui.Control_from_string "b" "button -proot" (Some "w")
    = Ok (gui.mkControl "b" "button" "-proot" (Some "w"))
  ∧ gui.Control_from_string "b" "button -parentroot -x" (Some "w")
    = Ok (gui.mkControl "b" "button" "-parentroot -x" (Some "w")).
Proof. repeat split; vm_compute; reflexivity. Qed.

(** ** Lines without a colon, in general *)

Lemma lstrip_head s c t : Py.lstrip s = String c t → Py.isspace c = false.
Proof.
  induction s as [|b s IH]; cbn [Py.lstrip]; [done|].
  destruct (Py.isspace b) eqn:E; [done|]. by intros [= <- _].
Qed.

Lemma rstrip_head c t :
  Py.isspace c = false → ∃ t', Py.rstrip (String c t) = String c t'.
Proof.
  intros Hc. cbn [Py.rstrip]. destruct (Py.rstrip t) as [|b r].
  - rewrite Hc. by eexists.
  - by eexists.
Qed.

(** A non-empty stripped text starts with a character that is not
    blank. *)
Lemma strip_head s :
  Py.truthy (Py.strip s) = true →
  ∃ c t, Py.strip s = String c t ∧ Py.isspace c = false.
Proof.
  unfold Py.strip. destruct (Py.lstrip s) as [|c t] eqn:E; [done|].
  intros _. pose proof (lstrip_head s c t E) as Hc.
  destruct (rstrip_head c t Hc) as [t' ->]. eauto.
Qed.

Lemma split_head c t : Py.isspace c = false → Py.split (String c t) ≠ [].
Proof.
  intros Hc. cbn [Py.split]. rewrite Hc. destruct t as [|c' t']; [done|].
  destruct (Py.isspace c'); [done|]. by destruct (Py.split (String c' t')).
Qed.

(** Replacing a text that starts with a space leaves a first character
    that is not a space in place. *)
Lemma replace_head old c t :
  Ascii.eqb Py.SPACE c = false →
  ∃ t', Py.replace (String Py.SPACE old) " " (String c t) = String c t'.
Proof.
  intros Hc. unfold Py.replace. cbn [Py.replace_go Py.startswith].
  rewrite Hc. cbn [andb]. by eexists.
Qed.

Lemma isspace_not_space c : Py.isspace c = false → Ascii.eqb Py.SPACE c = false.
Proof.
  intros Hc. destruct (Ascii.eqb Py.SPACE c) eqn:E; [|done].
  apply Ascii.eqb_eq in E as <-. by vm_compute in Hc.
Qed.

(** A command that starts with a character that is not blank always
    yields a control. *)
Lemma Control_from_string_Ok nm c t parent :
  Py.isspace c = false →
  ∃ control, gui.Control_from_string nm (String c t) parent = Ok control
             ∧ gui.name control = nm.
Proof.
  intros Hc. unfold gui.Control_from_string.
  destruct (Re.search gui.parent_name_pattern (String c t)) as [m|] eqn:E.
  - destruct (search_parent_Some _ m E) as (_ & _ & _ & _ & _ & _ & old & ->).
    destruct (replace_head old c t (isspace_not_space c Hc)) as [t' ->].
    pose proof (split_head c t' Hc).
    destruct (Py.split (String c t')); [done|]. cbn. eauto.
  - pose proof (split_head c t Hc).
    destruct (Py.split (String c t)); [done|]. cbn. eauto.
Qed.

Lemma slice_from_0 s : Py.slice_from s 0 = s.
Proof. unfold Py.slice_from, Py.slice_index, Py.len. cbn. by destruct s. Qed.

(** C3 (the code departs from the claim): when the only meaningful line
    of a declaration text has no colon, parsing raises no error; it
    yields one control, named by the line less its last character. *)
Theorem C3_colonless_line_yields_control (s line : string) :
  gui.meaningful_lines s = [line] →
  Py.find Py.COLON line = -1 →
  ∃ control,
    gui.parse_controls s = Ok [control]
    ∧ gui.Gui._controls <$> gui.Gui.from_string s = Ok [control]
    ∧ gui.name control = Py.strip (Py.slice_to line (-1)).
Proof.
  intros Hlines Hfind.
  assert (Py.truthy (Py.strip line) = true) as Htruthy.
  { assert (line ∈ gui.meaningful_lines s) as Hin
      by (rewrite Hlines; apply list_elem_of_here).
    unfold gui.meaningful_lines in Hin.
    apply list_elem_of_In, filter_In in Hin as [_ Hin]. done. }
  destruct (strip_head line Htruthy) as (c & t & Hstrip & Hc).
  unfold gui.Gui.from_string, gui.parse_controls. rewrite Hlines.
  cbn [gui.parse_line fmap list_fmap]. unfold gui.split_control.
  rewrite Hfind. change (-1 + 1) with 0. rewrite slice_from_0, Hstrip.
  cbn [gui.collect_controls].
  assert (gui.ControlStack.pop (gui.get_indentation_level line) gui.ControlStack.init
          = Ok gui.ControlStack.init) as ->.
  { unfold gui.ControlStack.pop. cbn.
    pose proof (get_indentation_level_nonneg line).
    destruct (-1 >=? gui.get_indentation_level line) eqn:E; [lia|done]. }
  rewrite bind_Ok. cbn [gui.ControlStack.top_control gui.ControlStack.init
                          gui.ControlStack._controls].
  rewrite bind_Ok.
  destruct (Control_from_string_Ok (Py.strip (Py.slice_to line (-1))) c t None Hc)
    as (control & -> & Hname).
  rewrite bind_Ok.
  assert (∃ st, gui.ControlStack.push (gui.get_indentation_level line)
                  (Py.strip (Py.slice_to line (-1))) gui.ControlStack.init = Ok st)
    as [st ->].
  { unfold gui.ControlStack.push. cbn.
    pose proof (get_indentation_level_nonneg line).
    destruct (gui.get_indentation_level line >? -1) eqn:E; [by eexists|lia]. }
  rewrite bind_Ok. cbn. by exists control.
Qed.

(** The one-line text [button]. *)
Lemma C3_colonless_line_yields_control_witness :
  ∃ control,
    gui.parse_controls "button" = Ok [control]
    ∧ gui.Gui._controls <$> gui.Gui.from_string "button" = Ok [control]
    ∧ gui.name control = Py.strip (Py.slice_to "button" (-1)).
Proof.
  apply (C3_colonless_line_yields_control "button" "button").
  - vm_compute. reflexivity.
  - vm_compute. reflexivity.
Defined.

(** ** The callback notifier: unregistering and composing *)

Lemma filter_keeps_all (cb : state.callback) (l : list state.callback) :
  cb ∉ l → filter (λ x, x ≠ cb) l = l.
Proof.
  induction l as [|x l IH]; intros Hnotin; [done|].
  apply not_elem_of_cons in Hnotin as [Hne Hnotin].
  rewrite filter_cons_True by congruence. by rewrite IH.
Qed.

(** On a list without repetition, [remove] drops every occurrence. *)
Lemma list_remove_filter (cb : state.callback) (l : list state.callback) :
  NoDup l → state.list_remove cb l = filter (λ x, x ≠ cb) l.
Proof.
  induction 1 as [|x l Hx Hnodup IH]; [done|]. cbn [state.list_remove].
  case_bool_decide as Heq.
  - subst x. rewrite filter_cons_False by (intros H; by apply H).
    by rewrite filter_keeps_all.
  - rewrite filter_cons_True by done. by rewrite IH.
Qed.

Lemma unregister_loop_filter (registered callbacks : list state.callback) :
  NoDup registered →
  state.unregister_loop registered callbacks
  = filter (λ x, x ∉ callbacks) registered.
Proof.
  revert registered. unfold state.unregister_loop.
  induction callbacks as [|cb callbacks IH]; intros registered Hnodup.
  - cbn. symmetry. induction registered as [|x l IHl]; [done|].
    apply NoDup_cons in Hnodup as [_ Hnodup].
    rewrite filter_cons_True by apply not_elem_of_nil. by rewrite IHl.
  - cbn [foldl].
    assert ((if bool_decide (cb ∈ registered)
             then state.list_remove cb registered else registered)
            = filter (λ x, x ≠ cb) registered) as ->.
    { case_bool_decide.
      - by apply list_remove_filter.
      - by rewrite filter_keeps_all. }
    rewrite IH by (by apply NoDup_filter).
    rewrite list_filter_filter. apply list_filter_iff.
    intros x. rewrite not_elem_of_cons. tauto.
Qed.

(** The list of an event after an unregister. *)
Lemma unregister_list n event callbacks :
  spec.reachable n →
  event ∈ state.__supported_events n →
  state.ended (state.unregister n event callbacks) = Ok ()
  ∧ state.invoked (state.unregister n event callbacks) = []
  ∧ default []
      (state.__callbacks (state.self_after (state.unregister n event callbacks))
         !! event)
    = filter (λ cb, cb ∉ callbacks) (default [] (state.__callbacks n !! event)).
Proof.
  intros Hreach Hsup.
  unfold state.unregister. rewrite check_support_supported by done.
  destruct (state.__callbacks n !! event) as [registered|] eqn:Hreg; cbn.
  - split; [done|]. split; [done|]. rewrite lookup_insert_eq. cbn.
    apply unregister_loop_filter. by eapply reachable_NoDup.
  - split; [done|]. split; [done|]. by rewrite Hreg.
Qed.

(** X1: on a reachable notifier and a supported event, unregister
    succeeds, calls nothing, and leaves for the event the list it had, in
    the same order, less the unregistered callbacks. *)
Theorem unregister_drops_callbacks n event callbacks :
  spec.reachable n →
  event ∈ state.__supported_events n →
  let n' := state.self_after (state.unregister n event callbacks) in
  state.ended (state.unregister n event callbacks) = Ok ()
  ∧ state.invoked (state.unregister n event callbacks) = []
  ∧ default [] (state.__callbacks n' !! event)
    = filter (λ cb, cb ∉ callbacks) (default [] (state.__callbacks n !! event)).
Proof. intros Hreach Hsup n'. by apply unregister_list. Qed.

Lemma unregister_drops_callbacks_witness :
  let n := state.self_after
             (state.register (state.init "SelectionState" ["changed"])
                "changed" [4; 5; 6]%nat) in
  let n' := state.self_after (state.unregister n "changed" [5; 9]%nat) in
  state.ended (state.unregister n "changed" [5; 9]%nat) = Ok ()
  ∧ state.invoked (state.unregister n "changed" [5; 9]%nat) = []
  ∧ default [] (state.__callbacks n' !! "changed")
    = filter (λ cb, cb ∉ [5; 9]%nat) (default [] (state.__callbacks n !! "changed")).
Proof.
  intros n.
  apply (unregister_drops_callbacks n "changed" [5; 9]%nat).
  - apply spec.reachable_register, spec.reachable_init.
  - subst n. rewrite register_supported by apply list_elem_of_here.
    apply list_elem_of_here.
Defined.

(** X2: two registrations in a row for one event leave what a single
    registration of the two argument lists together leaves. *)
Theorem register_twice_is_register_both n event first second :
  state.register (state.self_after (state.register n event first)) event second
  = state.register n event (first ++ second).
Proof.
  destruct (decide (event ∈ state.__supported_events n)) as [Hsup|Hnot].
  - rewrite (register_supported n event first Hsup). cbn [state.self_after].
    rewrite register_supported by done.
    rewrite (register_supported n event (first ++ second) Hsup).
    cbn. rewrite lookup_insert_eq, insert_insert_eq. cbn.
    unfold state.register_loop at 3. rewrite foldl_app. done.
  - unfold state.register at 2 3.
    rewrite (check_support_unsupported n event Hnot). cbn [state.self_after].
    unfold state.register. by rewrite (check_support_unsupported n event Hnot).
Qed.

(** X3: [register] and [unregister] called for one event never change
    the list of another event, nor the supported events, nor the
    class. *)
Theorem other_events_untouched n event other callbacks :
  other ≠ event →
  let after :=
    [state.self_after (state.register n event callbacks);
     state.self_after (state.unregister n event callbacks)] in
  Forall (λ n', state.__callbacks n' !! other = state.__callbacks n !! other
                ∧ state.__supported_events n' = state.__supported_events n
                ∧ state.class_name n' = state.class_name n) after.
Proof.
  intros Hne after. subst after.
  repeat apply Forall_cons_2; [..|apply Forall_nil_2].
  - unfold state.register. destruct (state.__check_support n event); [done|].
    cbn. rewrite lookup_insert_ne by done.
    case_bool_decide; cbn; [done|]. by rewrite lookup_insert_ne.
  - unfold state.unregister. destruct (state.__check_support n event); [done|].
    destruct (state.__callbacks n !! event); [|done].
    cbn. by rewrite lookup_insert_ne.
Qed.

Lemma other_events_untouched_witness :
  let n := state.init "SelectionState" ["changed"; "cleared"] in
  let after :=
    [state.self_after (state.register n "changed" [1%nat]);
     state.self_after (state.unregister n "changed" [1%nat])] in
  Forall (λ n', state.__callbacks n' !! "cleared" = state.__callbacks n !! "cleared"
                ∧ state.__supported_events n' = state.__supported_events n
                ∧ state.class_name n' = state.class_name n) after.
Proof.
  intros n.
  apply (other_events_untouched n "changed" "cleared" [1%nat]). discriminate.
Defined.

(** X4: registering callbacks of which none is registered yet, then
    unregistering the same callbacks, gives the event the list it had
    before. *)
Theorem register_then_unregister n event callbacks :
  spec.reachable n →
  event ∈ state.__supported_events n →
  (∀ cb, cb ∈ callbacks → cb ∉ default [] (state.__callbacks n !! event)) →
  let n1 := state.self_after (state.register n event callbacks) in
  let n2 := state.self_after (state.unregister n1 event callbacks) in
  default [] (state.__callbacks n2 !! event)
  = default [] (state.__callbacks n !! event).
Proof.
  intros Hreach Hsup Hfresh n1 n2. subst n2.
  assert (spec.reachable n1) as Hreach1 by (by apply spec.reachable_register).
  assert (event ∈ state.__supported_events n1) as Hsup1.
  { subst n1. by rewrite register_supported. }
  destruct (unregister_list n1 event callbacks Hreach1 Hsup1) as (_ & _ & ->).
  subst n1. rewrite register_supported by done. cbn.
  rewrite lookup_insert_eq. cbn.
  set (old := default [] (state.__callbacks n !! event)) in *.
  assert (NoDup old) as Hold.
  { subst old. destruct (state.__callbacks n !! event) as [l|] eqn:E; cbn.
    - exact (reachable_NoDup n Hreach event l E).
    - apply NoDup_nil_2. }
  destruct (register_loop_spec old callbacks Hold) as (Hnodup & [new Hnew] & Hin).
  rewrite Hnew in *. rewrite filter_app.
  assert (filter (λ cb, cb ∉ callbacks) old = old) as ->.
  { clear -Hfresh. induction old as [|x old IH]; [done|].
    rewrite filter_cons_True.
    - f_equal. apply IH. intros cb Hcb Hx. apply (Hfresh cb Hcb). by right.
    - intros Hx. apply (Hfresh x Hx). by left. }
  assert (filter (λ cb, cb ∉ callbacks) new = []) as ->; [|by rewrite app_nil_r].
  apply NoDup_app in Hnodup as (_ & Hdisj & _).
  assert (∀ x, x ∈ new → x ∈ callbacks) as Hsub.
  { intros x Hx. destruct (Hin x) as [[Hxold|Hxcb] _]; [|by exfalso; eapply Hdisj|done].
    apply elem_of_app. by right. }
  clear -Hsub. induction new as [|x new IH]; [done|].
  rewrite filter_cons_False.
  - apply IH. intros y Hy. apply Hsub. by right.
  - intros Hx. apply Hx, Hsub. by left.
Qed.

Lemma register_then_unregister_witness :
  let n := state.self_after
             (state.register (state.init "SelectionState" ["changed"])
                "changed" [4; 5]%nat) in
  let n1 := state.self_after (state.register n "changed" [8; 9; 8]%nat) in
  let n2 := state.self_after (state.unregister n1 "changed" [8; 9; 8]%nat) in
  default [] (state.__callbacks n2 !! "changed")
  = default [] (state.__callbacks n !! "changed").
Proof.
  intros n.
  assert ("changed" ∈ state.__supported_events n) as Hsup.
  { subst n. rewrite register_supported by apply list_elem_of_here.
    apply list_elem_of_here. }
  apply (register_then_unregister n "changed" [8; 9; 8]%nat).
  - apply spec.reachable_register, spec.reachable_init.
  - exact Hsup.
  - intros cb Hcb. subst n.
    rewrite register_supported by apply list_elem_of_here.
    cbn. rewrite lookup_insert_eq. cbn.
    intros Hin. apply elem_of_cons in Hin as [->|Hin].
    + repeat (apply elem_of_cons in Hcb as [Hcb|Hcb]; [discriminate|]).
      by apply elem_of_nil in Hcb.
    + apply list_elem_of_singleton in Hin as ->.
      repeat (apply elem_of_cons in Hcb as [Hcb|Hcb]; [discriminate|]).
      by apply elem_of_nil in Hcb.
Defined.

(** ** Notification *)

(** X19: when the callbacks registered for a supported event neither
    raise nor change the list of the event while they run, a notify
    calls them all, each once, in the order of the list, and raises
    nothing. *)
Theorem notify_calls_registered_in_order {W : Type}
    (run : state.callback → W → state.CallbackNotifier
           → W * state.CallbackNotifier * option exn)
    (fuel : nat) (w : W) n event registered :
  spec.quiet run event registered →
  event ∈ state.__supported_events n →
  state.__callbacks n !! event = Some registered →
  (length registered < fuel)%nat →
  ∃ w' self', state._notify run fuel w n event
              = Some (w', state.mkOutcome self' registered (Ok ())).
Proof. apply notify_quiet. Qed.

Lemma quiet_do_nothing event callbacks :
  spec.quiet samples.do_nothing event callbacks.
Proof. by intros cb w self _. Qed.

Lemma notify_calls_registered_in_order_witness :
  let n := state.self_after
             (state.register (state.init "SelectionState" ["changed"])
                "changed" [4; 5]%nat) in
  ∃ w' self', state._notify samples.do_nothing 3 () n "changed"
              = Some (w', state.mkOutcome self' [4; 5]%nat (Ok ())).
Proof.
  intros n.
  apply (notify_calls_registered_in_order samples.do_nothing 3 () n "changed"
           [4; 5]%nat).
  - apply quiet_do_nothing.
  - subst n. rewrite register_supported by apply list_elem_of_here.
    apply list_elem_of_here.
  - subst n. rewrite register_supported by apply list_elem_of_here.
    cbn. by rewrite lookup_insert_eq, lookup_empty.
  - cbn. lia.
Defined.

(** X20: when a registered callback raises, and the callbacks before it
    in the list neither raise nor change the list, a notify calls the
    callbacks up to that one, in order, raises its exception, and calls
    none of the callbacks after it. *)
Theorem notify_stops_at_raising_callback {W : Type}
    (run : state.callback → W → state.CallbackNotifier
           → W * state.CallbackNotifier * option exn)
    (fuel : nat) (w : W) n event before cb after e :
  spec.quiet run event before →
  (∀ w s, (run cb w s).2 = Some e) →
  event ∈ state.__supported_events n →
  state.__callbacks n !! event = Some (before ++ cb :: after) →
  (length before < fuel)%nat →
  ∃ w' self', state._notify run fuel w n event
              = Some (w', state.mkOutcome self' (before ++ [cb]) (Raise e)).
Proof.
  intros Hquiet Hraise Hsup Hl Hfuel. unfold state._notify.
  rewrite check_support_supported by done. rewrite Hl.
  destruct (notify_loop_raise run event before cb after e fuel 0 w n []
              Hquiet Hraise Hl) as (w' & self' & ->); [lia|lia|].
  exists w', self'. by rewrite drop_0.
Qed.

Lemma notify_stops_at_raising_callback_witness :
  let n := state.self_after
             (state.register (state.init "SelectionState" ["changed"])
                "changed" [0; 1; 2]%nat) in
  ∃ w' self', state._notify samples.first_raises 2 () n "changed"
              = Some (w', state.mkOutcome self' ([0%nat] ++ [1%nat])
                            (Raise (TypeError "callback failed"))).
Proof.
  intros n.
  apply (notify_stops_at_raising_callback samples.first_raises 2 () n "changed"
           [0%nat] 1%nat [2%nat]).
  - intros cb w self Hcb. apply list_elem_of_singleton in Hcb as ->. done.
  - done.
  - subst n. rewrite register_supported by apply list_elem_of_here.
    apply list_elem_of_here.
  - subst n. rewrite register_supported by apply list_elem_of_here.
    cbn. by rewrite lookup_insert_eq, lookup_empty.
  - cbn. lia.
Defined.

(** ** The Gui container: lookup, creation, extension *)

Section gui_lookup.
Context {ref : Type} (name_of : ref → string).

Local Abbreviation add := (gui.Gui.add name_of).
Local Abbreviation init := (gui.Gui.init name_of).

(** What the index holds under a key after a run of adds: a control of
    the run with that name, or what it held before when the run has no
    such control. *)
Lemma lookup_foldl_add_cases g cs key :
  ((key ∉ (name_of <$> cs))
   ∧ (gui.Gui._control_lookup (foldl add g cs) !! key
      = gui.Gui._control_lookup g !! key))
  ∨ (∃ c, c ∈ cs ∧ name_of c = key
          ∧ gui.Gui._control_lookup (foldl add g cs) !! key = Some c).
Proof.
  induction cs as [|x cs IH] using rev_ind.
  - left. split; [apply not_elem_of_nil|done].
  - rewrite foldl_add_snoc. cbn. rewrite fmap_app. cbn.
    destruct (decide (name_of x = key)) as [Heq|Hne].
    + right. exists x. split; [apply elem_of_app; right; apply list_elem_of_here|].
      split; [done|]. by rewrite <- Heq, lookup_insert_eq.
    + rewrite lookup_insert_ne by done. destruct IH as [[Hnotin Hsame]|(c & Hc & Hname & Hlook)].
      * left. split; [|done]. rewrite not_elem_of_app. split; [done|].
        intros Hin. apply list_elem_of_singleton in Hin. congruence.
      * right. exists c. split; [apply elem_of_app; by left|done].
Qed.

(** What indexing a Gui built from a list of controls gives. *)
Lemma getitem_init_cases (cs : list ref) (key : string) :
  (gui.Gui.getitem (init cs) key = Raise (KeyError key)
   ↔ key ∉ (name_of <$> cs))
  ∧ (∀ c, gui.Gui.getitem (init cs) key = Ok c → c ∈ cs ∧ name_of c = key)
  ∧ (key ∈ (name_of <$> cs) → ∃ c, gui.Gui.getitem (init cs) key = Ok c).
Proof.
  unfold gui.Gui.getitem, gui.Gui.init.
  destruct (lookup_foldl_add_cases (gui.Gui.mk [] ∅) cs key)
    as [[Hnotin ->]|(c & Hc & Hname & ->)]; cbn.
  - rewrite lookup_empty. split; [done|]. split; [done|]. done.
  - split; [|split].
    + split; [done|]. intros Hnotin. exfalso. apply Hnotin.
      rewrite <- Hname. by apply list_elem_of_fmap_2.
    + by intros c' [= <-].
    + eauto.
Qed.

(** X5: indexing a Gui built from a list of controls raises KeyError
    exactly for the keys that name none of them; when it returns, it
    returns one of the controls, and that control carries the key as its
    name. *)
Theorem getitem_by_name (cs : list ref) (key : string) :
  (gui.Gui.getitem (init cs) key = Raise (KeyError key)
   ↔ key ∉ (name_of <$> cs))
  ∧ (∀ c, gui.Gui.getitem (init cs) key = Ok c → c ∈ cs ∧ name_of c = key)
  ∧ (key ∈ (name_of <$> cs) → ∃ c, gui.Gui.getitem (init cs) key = Ok c).
Proof. apply getitem_init_cases. Qed.
End gui_lookup.

Section creation.
Context {host : Type} (mel_eval : string → host → host * option string).
Context {ref : Type} (deref : ref → gui.Control).

Local Abbreviation create_loop := (runtime.create_loop mel_eval deref).
Local Abbreviation Control_create := (runtime.Control_create mel_eval).

Lemma create_loop_app before after (w : runtime.world host) :
  create_loop (before ++ after) w
  = match create_loop before w with
    | (w', None) => create_loop after w'
    | (w', Some exc) => (w', Some exc)
    end.
Proof.
  revert w. induction before as [|c before IH]; intros w; cbn [app runtime.create_loop].
  - done.
  - destruct (Control_create (deref c) w) as [w' [exc|]]; [done|apply IH].
Qed.

(** A creation that succeeds prints nothing. *)
Lemma create_loop_quiet controls (w w' : runtime.world host) :
  create_loop controls w = (w', None) → runtime.stdout w' = runtime.stdout w.
Proof.
  revert w. induction controls as [|c controls IH]; intros w; cbn [runtime.create_loop].
  - by intros [= <-].
  - unfold runtime.Control_create.
    destruct (mel_eval _ _) as [h [exc|]]; [done|].
    intros H. by rewrite (IH _ H).
Qed.

(** X6: [Gui.create] issues the creation commands in the order of the
    sequence and stops at the first the host rejects: when the controls
    before some control are created and the host raises on that control's
    command, the error is raised again, the controls after it are never
    issued, the host is left as that failed command left it, and exactly
    one line is printed, the rejected command between slashes. *)
Theorem Gui_create_stops_at_first_failure
    (before after : list ref) (c : ref) (lookup : gmap string ref)
    (w w1 : runtime.world host) (h : host) (exc : string) :
  create_loop before w = (w1, None) →
  mel_eval (runtime.create_command (deref c)) (runtime.host_state w1)
  = (h, Some exc) →
  runtime.Gui_create mel_eval deref (gui.Gui.mk (before ++ c :: after) lookup) w
  = (runtime.mkWorld h
       (runtime.stdout w
          ++ ["// " +:+ runtime.create_command (deref c) +:+ " //"]),
     Some exc).
Proof.
  intros Hbefore Hfail. unfold runtime.Gui_create. cbn [gui.Gui._controls].
  rewrite create_loop_app, Hbefore. cbn [runtime.create_loop].
  unfold runtime.Control_create. rewrite Hfail.
  by rewrite (create_loop_quiet before w w1 Hbefore).
Qed.

(** X7: [extend] leaves the Gui that the constructor builds from the two
    sequences one after the other, so a name carried on both sides now
    designates the control of the absorbed Gui; and it creates the
    controls of the absorbed Gui only. *)
Theorem Gui_extend_is_init_of_both (mine others : list ref)
    (w : runtime.world host) :
  let name_of := λ r, gui.name (deref r) in
  runtime.Gui_extend mel_eval deref
    (gui.Gui.init name_of mine) (gui.Gui.init name_of others) w
  = (gui.Gui.init name_of (mine ++ others), create_loop others w).
Proof.
  intros name_of. unfold runtime.Gui_extend, runtime.Gui_create.
  assert (gui.Gui._controls (gui.Gui.init name_of others) = others) as ->.
  { unfold gui.Gui.init. by rewrite controls_foldl_add. }
  by rewrite init_then_add.
Qed.
End creation.

(** Three controls on the logging host, the second of a type the host
    does not know. *)
Lemma Gui_create_stops_at_first_failure_witness :
  runtime.Gui_create samples.logging_eval id
    (gui.Gui.mk ([samples.window_layout] ++ samples.bad_button :: [samples.last_text])
       ∅)
    (runtime.mkWorld [] [])
  = (runtime.mkWorld
       ["columnLayout -adj 1 main;"; "bogusButton -p main -label Go go;"]
       ([] ++ ["// " +:+ runtime.create_command samples.bad_button +:+ " //"]),
     Some "Cannot find procedure").
Proof.
  apply (Gui_create_stops_at_first_failure samples.logging_eval id
           [samples.window_layout] [samples.last_text] samples.bad_button ∅
           (runtime.mkWorld [] [])
           (runtime.mkWorld ["columnLayout -adj 1 main;"] [])).
  - vm_compute. reflexivity.
  - vm_compute. reflexivity.
Defined.

(** ** Control.edit: the flags that are not thunked *)

Lemma thunk_fold_other cell items st k :
  (∀ v, (k, v) ∈ items → gui.is_command_flag k && gui.callable v = false) →
  (foldl (gui.thunk_step cell) st items).1 !! k = st.1 !! k.
Proof.
  revert st. induction items as [|[flag w] items IH]; intros st Hitems; [done|].
  cbn [foldl]. rewrite IH.
  - cbn. destruct (decide (flag = k)) as [->|Hne].
    + rewrite (Hitems w) by apply list_elem_of_here. done.
    + destruct (gui.is_command_flag flag && gui.callable w); [|done].
      by rewrite lookup_insert_ne.
  - intros v Hv. apply Hitems. by right.
Qed.

(** X8: whatever the iteration order, [edit] hands the host the caller's
    flags with [edit] set to True, even over an [edit] flag of the caller;
    a flag that is not a command flag, or whose value is not callable,
    goes through with its value; no flag is invented; and the frames of
    earlier calls are not touched. *)
Theorem edit_passes_other_flags
    (iteritems : gmap string gui.value → list (string * gui.value))
    (flags : gmap string gui.value) (σ : gui.frames) :
  (∀ d, iteritems d ≡ₚ map_to_list d) →
  let flags' := (gui.edit iteritems flags σ).1 in
  let σ' := (gui.edit iteritems flags σ).2 in
  flags' !! "edit" = Some (gui.VBool true)
  ∧ (∀ k, k ≠ "edit" → flags !! k = None → flags' !! k = None)
  ∧ (∀ k v, k ≠ "edit" → flags !! k = Some v →
       gui.is_command_flag k && gui.callable v = false →
       flags' !! k = Some v)
  ∧ ∃ binding, σ' = σ ++ [binding].
Proof.
  intros Hperm flags' σ'. subst flags' σ'.
  unfold gui.edit, gui.thunk_commands.
  set (flags0 := <["edit" := gui.VBool true]> flags).
  destruct (foldl _ _ _) as [flags1 binding] eqn:Hfold.
  assert (flags1 = (foldl (gui.thunk_step (length σ)) (flags0, None)
                      (iteritems flags0)).1) as -> by (by rewrite Hfold).
  cbn [fst snd].
  assert (∀ k v, (k, v) ∈ iteritems flags0 → flags0 !! k = Some v) as Hitems.
  { intros k v Hin. rewrite Hperm in Hin. by apply elem_of_map_to_list in Hin. }
  split; [|split; [|split; [|by eexists]]].
  - rewrite thunk_fold_other; [subst flags0; cbn; by rewrite lookup_insert_eq|].
    intros v Hin. apply Hitems in Hin. subst flags0.
    rewrite lookup_insert_eq in Hin. by injection Hin as <-.
  - intros k Hne Hnone. rewrite thunk_fold_other.
    + subst flags0. cbn. by rewrite lookup_insert_ne.
    + intros v Hin. apply Hitems in Hin. subst flags0.
      rewrite lookup_insert_ne in Hin by done. congruence.
  - intros k v Hne Hsome Hplain. rewrite thunk_fold_other.
    + subst flags0. cbn. by rewrite lookup_insert_ne.
    + intros v' Hin. apply Hitems in Hin. subst flags0.
      rewrite lookup_insert_ne in Hin by done. congruence.
Qed.

Lemma edit_passes_other_flags_witness :
  let flags : gmap string gui.value :=
    <["label" := gui.VStr "Go"]> (<["edit" := gui.VBool false]> ∅) in
  let flags' := (gui.edit map_to_list flags []).1 in
  let σ' := (gui.edit map_to_list flags []).2 in
  flags' !! "edit" = Some (gui.VBool true)
  ∧ (∀ k, k ≠ "edit" → flags !! k = None → flags' !! k = None)
  ∧ (∀ k v, k ≠ "edit" → flags !! k = Some v →
       gui.is_command_flag k && gui.callable v = false →
       flags' !! k = Some v)
  ∧ ∃ binding, σ' = [] ++ [binding].
Proof.
  intros flags.
  apply (edit_passes_other_flags map_to_list flags []). reflexivity.
Defined.

(** ** Window: the flags of the window command *)

(** X9: the flags handed to the window command always carry the title,
    width and height given to the constructor, whatever the caller's flags
    say; [toolbox] and [resizeToFitChildren] carry the caller's value when
    there is one and True otherwise; every other flag is the caller's. *)
Theorem window_flags_precedence (title : string) (width height : Z)
    (flags : option (gmap string gui.value)) :
  let given := default ∅ flags in
  let passed := window.window_flags title (width, height) flags in
  passed !! "title" = Some (gui.VStr title)
  ∧ passed !! "width" = Some (gui.VInt width)
  ∧ passed !! "height" = Some (gui.VInt height)
  ∧ passed !! "toolbox"
    = Some (default (gui.VBool true) (given !! "toolbox"))
  ∧ passed !! "resizeToFitChildren"
    = Some (default (gui.VBool true) (given !! "resizeToFitChildren"))
  ∧ ∀ key, key ∉ ["title"; "width"; "height"; "toolbox"; "resizeToFitChildren"] →
           passed !! key = given !! key.
Proof.
  intros given passed. subst passed. unfold window.window_flags.
  fold given. cbn [foldl].
  set (base := <["height" := gui.VInt height]>
                 (<["width" := gui.VInt width]>
                    (<["title" := gui.VStr title]> given))).
  assert (∀ key, key ∉ ["title"; "width"; "height"] → base !! key = given !! key)
    as Hbase.
  { intros key Hkey. subst base.
    rewrite !not_elem_of_cons in Hkey. destruct Hkey as (? & ? & ? & _).
    by rewrite !lookup_insert_ne. }
  assert (base !! "toolbox" = given !! "toolbox") as Htool.
  { apply Hbase. rewrite !not_elem_of_cons. repeat split; try discriminate.
    apply not_elem_of_nil. }
  assert (base !! "resizeToFitChildren" = given !! "resizeToFitChildren") as Hresize.
  { apply Hbase. rewrite !not_elem_of_cons. repeat split; try discriminate.
    apply not_elem_of_nil. }
  set (with_toolbox :=
         if negb (bool_decide (is_Some (base !! "toolbox")))
         then <["toolbox" := gui.VBool true]> base else base).
  assert (∀ key, key ≠ "toolbox" → with_toolbox !! key = base !! key) as Htb.
  { intros key Hkey. subst with_toolbox.
    destruct (negb _); [by rewrite lookup_insert_ne|done]. }
  assert (with_toolbox !! "toolbox"
          = Some (default (gui.VBool true) (given !! "toolbox"))) as Htb'.
  { subst with_toolbox. rewrite <- Htool.
    destruct (decide (is_Some (base !! "toolbox"))) as [Hsome|Hsome].
    - rewrite bool_decide_eq_true_2 by done. cbn [negb].
      by destruct Hsome as [v ->].
    - rewrite bool_decide_eq_false_2 by done. cbn [negb].
      rewrite lookup_insert_eq. destruct (base !! "toolbox") eqn:E; [|done].
      exfalso. apply Hsome. eauto. }
  set (final :=
         if negb (bool_decide (is_Some (with_toolbox !! "resizeToFitChildren")))
         then <["resizeToFitChildren" := gui.VBool true]> with_toolbox
         else with_toolbox).
  assert (∀ key, key ≠ "resizeToFitChildren" → final !! key = with_toolbox !! key)
    as Hfin.
  { intros key Hkey. subst final.
    destruct (negb (bool_decide (is_Some (with_toolbox !! "resizeToFitChildren"))));
      [by rewrite lookup_insert_ne|done]. }
  split; [rewrite Hfin, Htb by discriminate; subst base;
          by rewrite !lookup_insert_ne, lookup_insert_eq by discriminate|].
  split; [rewrite Hfin, Htb by discriminate; subst base;
          by rewrite lookup_insert_ne, lookup_insert_eq by discriminate|].
  split; [rewrite Hfin, Htb by discriminate; subst base;
          by rewrite lookup_insert_eq|].
  split; [by rewrite Hfin by discriminate|].
  split.
  - subst final. rewrite Htb by discriminate. rewrite <- Hresize.
    destruct (decide (is_Some (base !! "resizeToFitChildren"))) as [Hsome|Hsome].
    + rewrite bool_decide_eq_true_2 by done. cbn [negb].
      rewrite Htb by discriminate. by destruct Hsome as [v ->].
    + rewrite bool_decide_eq_false_2 by done. cbn [negb].
      rewrite lookup_insert_eq.
      destruct (base !! "resizeToFitChildren") eqn:E; [|done].
      exfalso. apply Hsome. eauto.
  - intros key Hkey. rewrite !not_elem_of_cons in Hkey.
    destruct Hkey as (? & ? & ? & ? & ? & _).
    rewrite Hfin, Htb by done. apply Hbase.
    rewrite !not_elem_of_cons. repeat split; try done. apply not_elem_of_nil.
Qed.

(** ** The parser: comment stripping, indentation, splitting *)

Lemma find_cases c s :
  Py.find c s = -1
  ∨ ∃ pre post, s = pre +:+ String c post ∧ Py.find c pre = -1
                ∧ Py.find c s = Py.len pre.
Proof.
  induction s as [|b s IH]; [by left|]. cbn [Py.find].
  destruct (Ascii.eqb b c) eqn:E.
  - apply Ascii.eqb_eq in E as ->. right. by exists EmptyString, s.
  - destruct IH as [->|(pre & post & -> & Hpre & ->)].
    + by left.
    + right. exists (String b pre), post. rewrite app_String. split; [done|].
      cbn [Py.find]. rewrite E, Hpre. cbn. split; [done|].
      unfold Py.len. destruct (Z.ltb_spec (Z.of_nat (String.length pre)) 0); [lia|].
      cbn [String.length]. lia.
Qed.

(** The first occurrence of a character is where [find] says. *)
Lemma find_app_first c pre post :
  Py.find c pre = -1 → Py.find c (pre +:+ String c post) = Py.len pre.
Proof.
  induction pre as [|b pre IH]; intros Hpre.
  - rewrite app_empty_l. cbn. by rewrite Ascii.eqb_refl.
  - rewrite app_String. cbn [Py.find] in *.
    destruct (Ascii.eqb b c); [done|].
    destruct (Z.ltb_spec (Py.find c pre) 0) as [Hlt|Hge]; [|lia].
    rewrite IH.
    + unfold Py.len. cbn [String.length].
      destruct (Z.ltb_spec (Z.of_nat (String.length pre)) 0); lia.
    + destruct (find_cases c pre) as [->|(p & q & _ & _ & Hl)]; [done|].
      rewrite Hl in Hlt. unfold Py.len in Hlt. lia.
Qed.

Lemma strip_comments_loop_no_hash st acc rest :
  gui.quote_open st = false →
  Py.find Py.HASH rest = -1 →
  gui.strip_comments_loop st acc rest = String.rev_app acc rest.
Proof.
  intros Hq. revert acc. induction rest as [|c rest IH]; intros acc Hfind; [done|].
  cbn [Py.find] in Hfind.
  destruct (Ascii.eqb c Py.HASH) eqn:Hc; [done|].
  assert (Py.find Py.HASH rest = -1) as Hrest.
  { destruct (find_cases Py.HASH rest) as [->|(pre & post & _ & _ & Hlen)]; [done|].
    rewrite Hlen in Hfind. unfold Py.len in Hfind.
    destruct (Z.ltb_spec (Z.of_nat (String.length pre)) 0); lia. }
  cbn [gui.strip_comments_loop]. rewrite Hc. cbn [andb].
  rewrite strip_comments_loop_state.
  destruct (Py.char_in c (gui.quote_chars st)); by rewrite IH.
Qed.

(** X10: what [strip_comments] returns holds no hash, is the start of the
    line, is the whole line when the line holds no hash, and is left
    alone by a second stripping. *)
Theorem strip_comments_result (line : string) :
  Py.find Py.HASH (gui.strip_comments line) = -1
  ∧ (∃ post, line = gui.strip_comments line +:+ post)
  ∧ (Py.find Py.HASH line = -1 → gui.strip_comments line = line)
  ∧ gui.strip_comments (gui.strip_comments line) = gui.strip_comments line.
Proof.
  assert (∀ l, Py.find Py.HASH l = -1 → gui.strip_comments l = l) as Hplain.
  { intros l Hl. unfold gui.strip_comments.
    by rewrite strip_comments_loop_no_hash. }
  destruct (find_cases Py.HASH line) as [Hnone|(pre & post & -> & Hpre & _)].
  - rewrite (Hplain line Hnone). split; [done|].
    split; [exists EmptyString; by rewrite app_empty_r|]. split; [done|].
    by apply Hplain.
  - assert (gui.strip_comments (pre +:+ String Py.HASH post) = pre) as ->.
    { unfold gui.strip_comments. by rewrite strip_comments_loop_first_hash. }
    split; [done|]. split; [by eexists|]. split; [|by apply Hplain].
    intros Hnone. rewrite (find_app_first _ _ post Hpre) in Hnone.
    unfold Py.len in Hnone. lia.
Qed.

(** Replacing each tab by four spaces gives a text as long as the
    reference width. *)
Lemma len_replace_tab (s : string) :
  Py.len (Py.replace (Py.str1 Py.TAB) "    " s) = reference.indent_width s.
Proof.
  unfold Py.replace, Py.str1.
  induction s as [|c s IH]; [done|].
  cbn [Py.replace_go Py.startswith reference.indent_width String.length Nat.pred].
  rewrite andb_true_r, (Ascii.eqb_sym Py.TAB c).
  destruct (Ascii.eqb c Py.TAB).
  - unfold Py.len in *. rewrite length_app_str. cbn [String.length].
    rewrite Nat2Z.inj_add, IH. done.
  - unfold Py.len in *. cbn [String.length]. rewrite Nat2Z.inj_succ, IH. lia.
Qed.

(** X11: the indentation level of a line is the width of its leading run
    of spaces and tabs, one per space and four per tab. *)
Theorem get_indentation_level_is_width (blanks rest : string) :
  spec.all_chars Re.blank_char blanks = true →
  spec.head_in Re.blank_char rest = false →
  gui.get_indentation_level (blanks +:+ rest) = reference.indent_width blanks.
Proof.
  intros Hblanks Hrest. unfold gui.get_indentation_level, Re.match_, Re.match_at.
  cbn [Re.rmatch]. rewrite star_run; [|by eauto|done|done].
  cbn [Re.group0]. rewrite consumed_app. apply len_replace_tab.
Qed.

(** A tab, two spaces and a tab before the name: ten columns. *)
Lemma get_indentation_level_is_width_witness :
  gui.get_indentation_level
    ((Py.str1 Py.TAB +:+ "  " +:+ Py.str1 Py.TAB) +:+ "ok: button")
  = reference.indent_width (Py.str1 Py.TAB +:+ "  " +:+ Py.str1 Py.TAB).
Proof.
  apply (get_indentation_level_is_width
           (Py.str1 Py.TAB +:+ "  " +:+ Py.str1 Py.TAB) "ok: button").
  - vm_compute. reflexivity.
  - vm_compute. reflexivity.
Defined.

Lemma drop_app_length (x y : string) : Py.drop (String.length x) (x +:+ y) = y.
Proof. induction x as [|c x IH]; cbn; [by destruct y|]. by rewrite app_String. Qed.

(** X12: a line that holds a colon is split at its first colon: the name
    is the stripped text before it and the command the stripped text
    after it, further colons included. *)
Theorem split_control_at_first_colon (before after : string) :
  Py.find Py.COLON before = -1 →
  gui.split_control (before +:+ String Py.COLON after)
  = (Py.strip before, Py.strip after).
Proof.
  intros Hbefore. unfold gui.split_control.
  rewrite (find_app_first _ _ after Hbefore).
  unfold Py.slice_to, Py.slice_from, Py.slice_index, Py.len.
  rewrite length_app_str. cbn [String.length].
  destruct (Z.ltb_spec (Z.of_nat (String.length before)) 0) as [?|_]; [lia|].
  destruct (Z.ltb_spec (Z.of_nat (String.length before) + 1) 0) as [?|_]; [lia|].
  replace (Z.to_nat (0 `max` (Z.of_nat (String.length before)
             `min` Z.of_nat (String.length before + S (String.length after)))))
    with (String.length before) by lia.
  replace (Z.to_nat (0 `max` ((Z.of_nat (String.length before) + 1)
             `min` Z.of_nat (String.length before + S (String.length after)))))
    with (String.length (before +:+ String Py.COLON EmptyString)).
  - rewrite take_app_length.
    replace (before +:+ String Py.COLON after)
      with ((before +:+ String Py.COLON EmptyString) +:+ after)
      by (by rewrite app_assoc_str).
    by rewrite drop_app_length.
  - rewrite length_app_str. cbn [String.length]. lia.
Qed.

(** A name, a colon, and a command holding a colon of its own. *)
Lemma split_control_at_first_colon_witness :
  gui.split_control ("  save " +:+ String Py.COLON " button -label a:b ")
  = (Py.strip "  save ", Py.strip " button -label a:b ").
Proof.
  apply (split_control_at_first_colon "  save " " button -label a:b ").
  vm_compute. reflexivity.
Defined.

(** ** The parser: which parent every line gets *)

(** Popping to a depth after popping to a deeper one is popping to the
    first depth at once. *)
Lemma pop_loop_shallower d d0 cs cs0 :
  d ≤ d0 →
  gui.ControlStack.pop_loop d0 cs = Ok cs0 →
  gui.ControlStack.pop_loop d cs0 = gui.ControlStack.pop_loop d cs.
Proof.
  intros Hle. induction cs as [|[depth nm] cs IH]; cbn [gui.ControlStack.pop_loop].
  - done.
  - destruct (Z.geb_spec depth d0) as [Hge|Hlt].
    + intros H. rewrite (IH H).
      destruct (Z.geb_spec depth d); [done|lia].
    + by intros [= <-].
Qed.

Lemma stack_tracks_init :
  reference.stack_tracks (gui.ControlStack._controls gui.ControlStack.init) [].
Proof.
  intros d Hd. exists (-1, None), []. cbn.
  destruct (Z.geb_spec (-1) d); [lia|done].
Qed.

Lemma stack_tracks_push cs earlier d0 n0 c0 cs0 :
  reference.stack_tracks cs earlier →
  gui.ControlStack.pop_loop d0 cs = Ok cs0 →
  reference.stack_tracks ((d0, Some n0) :: cs0) ((d0, n0, c0) :: earlier).
Proof.
  intros Htracks Hpop d Hd. cbn [gui.ControlStack.pop_loop reference.nearest_shallower].
  destruct (Z.geb_spec d0 d) as [Hge|Hlt].
  - destruct (Z.ltb_spec d0 d); [lia|].
    rewrite (pop_loop_shallower d d0 cs cs0) by (done || lia).
    by apply Htracks.
  - destruct (Z.ltb_spec d0 d); [|lia]. by exists (d0, Some n0), cs0.
Qed.

Lemma Control_from_string_parent nm command parent c :
  gui.Control_from_string nm command parent = Ok c →
  gui.parent_name c
  = match Re.search gui.parent_name_pattern command with
    | Some m => Re.group1 m
    | None => parent
    end.
Proof.
  unfold gui.Control_from_string.
  destruct (Re.search gui.parent_name_pattern command) as [m|];
    (match goal with |- context [gui.first_token ?l] => destruct l end);
    cbn; intros [= <-]; done.
Qed.

Lemma collect_controls_parents triples earlier acc st :
  Forall reference.well_formed_triple triples →
  spec.stack_ok st →
  reference.stack_tracks (gui.ControlStack._controls st) earlier →
  ∃ controls,
    gui.collect_controls triples acc st = Ok (acc ++ controls)
    ∧ gui.name <$> controls = (λ t : Z * string * string, t.1.2) <$> triples
    ∧ gui.parent_name <$> controls = reference.expected_parents earlier triples.
Proof.
  intros Hall. revert earlier acc st.
  induction Hall as [|[[d nm] cmd] triples (Hd & c0 & rest & Hcmd & Hc0) Hall IH];
    intros earlier acc st Hok Htracks.
  - exists []. by rewrite app_nil_r.
  - cbn in Hd, Hcmd. subst cmd. cbn [gui.collect_controls].
    destruct (pop_spec d st Hd Hok) as (top & below & Hpop & Hlt & Hok').
    rewrite Hpop, bind_Ok.
    destruct (Htracks d Hd) as (top' & below' & Hpop' & Hnearest).
    assert (top' = top) as ->.
    { unfold gui.ControlStack.pop in Hpop. rewrite Hpop' in Hpop.
      cbn in Hpop. by injection Hpop as -> _. }
    assert (gui.ControlStack.pop_loop d (gui.ControlStack._controls st)
            = Ok (top :: below)) as Hloop.
    { unfold gui.ControlStack.pop in Hpop.
      destruct (gui.ControlStack.pop_loop d (gui.ControlStack._controls st));
        cbn in Hpop; [by injection Hpop as ->|done]. }
    destruct top as [depth tn]. cbn in Hnearest, Hlt.
    cbn [gui.ControlStack.top_control gui.ControlStack._controls].
    rewrite bind_Ok.
    destruct (Control_from_string_Ok nm c0 rest tn Hc0) as (control & Hctl & Hname).
    pose proof (Control_from_string_parent _ _ _ _ Hctl) as Hparent.
    rewrite Hctl, bind_Ok.
    destruct (push_after_pop d nm (depth, tn) below Hd) as [-> Hok''];
      [cbn; lia|done|].
    rewrite bind_Ok.
    destruct (IH ((d, nm, String c0 rest) :: earlier) (acc ++ [control])
                (gui.ControlStack.mk ((d, Some nm) :: (depth, tn) :: below)) Hok'')
      as (controls & -> & Hnames & Hparents).
    { by apply (stack_tracks_push _ earlier d nm (String c0 rest) _ Htracks). }
    exists (control :: controls). rewrite <- app_assoc. split; [done|].
    cbn [reference.expected_parents]. rewrite !fmap_cons. split.
    + f_equal; [done|]. exact Hnames.
    + f_equal; [|exact Hparents].
      rewrite Hparent. by destruct (Re.search _ _); [|rewrite Hnearest].
Qed.

Lemma strip_cases s :
  Py.strip s = EmptyString
  ∨ ∃ c rest, Py.strip s = String c rest ∧ Py.isspace c = false.
Proof.
  destruct (Py.strip s) as [|c rest] eqn:E; [by left|]. right.
  destruct (strip_head s) as (c' & rest' & Heq & Hc); [by rewrite E|].
  rewrite E in Heq. injection Heq as -> ->. eauto.
Qed.

Lemma parse_line_well_formed lines :
  Forall (λ t : Z * string * string, t.2 ≠ EmptyString) (gui.parse_line lines) →
  Forall reference.well_formed_triple (gui.parse_line lines).
Proof.
  unfold gui.parse_line. rewrite !Forall_fmap. intros H.
  eapply Forall_impl; [exact H|].
  intros line. unfold compose, reference.well_formed_triple, gui.split_control.
  cbn. intros Hne. split; [apply get_indentation_level_nonneg|].
  by destruct (strip_cases (Py.slice_from line (Py.find Py.COLON line + 1)))
    as [?|?].
Qed.

(** X13: when every meaningful line of a text has a command, parsing
    yields one control per meaningful line, in order and under the name
    of the line, and the parent of each is the one its command names
    explicitly or else the name of the nearest earlier line that is
    indented strictly less, and none when there is no such line. *)
Theorem parents_are_nearest_shallower_lines (s : string) :
  let triples := gui.parse_line (gui.meaningful_lines s) in
  Forall (λ t : Z * string * string, t.2 ≠ EmptyString) triples →
  ∃ controls,
    gui.parse_controls s = Ok controls
    ∧ gui.Gui._controls <$> gui.Gui.from_string s = Ok controls
    ∧ gui.name <$> controls = (λ t : Z * string * string, t.1.2) <$> triples
    ∧ gui.parent_name <$> controls = reference.expected_parents [] triples.
Proof.
  intros triples Hall. subst triples.
  destruct (collect_controls_parents _ [] [] gui.ControlStack.init
              (parse_line_well_formed _ Hall) stack_ok_init stack_tracks_init)
    as (controls & Hcollect & Hnames & Hparents).
  exists controls. unfold gui.Gui.from_string, gui.parse_controls.
  rewrite Hcollect. cbn. split; [done|]. split; [|done].
  unfold gui.Gui.init. by rewrite controls_foldl_add.
Qed.

(** The five indented lines of [inputs.five_lines]. *)
Lemma parents_are_nearest_shallower_lines_witness :
  let triples := gui.parse_line (gui.meaningful_lines inputs.five_lines) in
  ∃ controls,
    gui.parse_controls inputs.five_lines = Ok controls
    ∧ gui.Gui._controls <$> gui.Gui.from_string inputs.five_lines = Ok controls
    ∧ gui.name <$> controls = (λ t : Z * string * string, t.1.2) <$> triples
    ∧ gui.parent_name <$> controls = reference.expected_parents [] triples.
Proof.
  apply (parents_are_nearest_shallower_lines inputs.five_lines).
  vm_compute. repeat (apply Forall_cons; split; [discriminate|]).
  apply Forall_nil_2.
Defined.

(** ** The parser: when it fails *)

Lemma collect_controls_empty_command triples acc st :
  Forall (λ t : Z * string * string, 0 ≤ t.1.1) triples →
  spec.stack_ok st →
  Exists (λ t : Z * string * string, t.2 = EmptyString) triples →
  gui.collect_controls triples acc st = Raise IndexError.
Proof.
  intros Hall. revert acc st.
  induction Hall as [|[[d nm] cmd] triples Hd Hall IH]; intros acc st Hok Hex.
  - by apply Exists_nil in Hex.
  - cbn in Hd. cbn [gui.collect_controls].
    destruct (pop_spec d st Hd Hok) as (top & below & -> & Hlt & Hok').
    rewrite bind_Ok. destruct top as [depth tn].
    cbn [gui.ControlStack.top_control gui.ControlStack._controls].
    rewrite bind_Ok.
    destruct (gui.Control_from_string nm cmd tn) as [c|e] eqn:Hctl.
    + rewrite bind_Ok.
      destruct (push_after_pop d nm (depth, tn) below Hd) as [-> Hok''];
        [cbn in *; lia|done|].
      rewrite bind_Ok. apply IH; [done|].
      apply Exists_cons in Hex as [Hempty|Hex]; [|done].
      cbn in Hempty. subst cmd. by vm_compute in Hctl.
    + rewrite bind_Raise. f_equal. by eapply Control_from_string_raises.
Qed.

(** X14: parsing a text raises IndexError exactly when one of its
    meaningful lines has nothing after its first colon but blanks; any
    other text is parsed into as many controls as it has meaningful
    lines. *)
Theorem parse_fails_on_empty_command (s : string) :
  let triples := gui.parse_line (gui.meaningful_lines s) in
  (gui.parse_controls s = Raise IndexError
   ↔ Exists (λ t : Z * string * string, t.2 = EmptyString) triples)
  ∧ (gui.Gui.from_string s = Raise IndexError
     ↔ Exists (λ t : Z * string * string, t.2 = EmptyString) triples)
  ∧ (∀ controls, gui.parse_controls s = Ok controls →
       length controls = length (gui.meaningful_lines s)).
Proof.
  intros triples.
  destruct (decide (Exists (λ t : Z * string * string, t.2 = EmptyString) triples))
    as [Hex|Hnot].
  - assert (gui.parse_controls s = Raise IndexError) as Hraise.
    { apply collect_controls_empty_command;
        [apply parse_line_depths|apply stack_ok_init|done]. }
    unfold gui.Gui.from_string. rewrite Hraise. cbn.
    split; [done|]. split; [done|]. intros controls [=].
  - apply not_Exists_Forall in Hnot; [|intros t; apply _].
    assert (Forall (λ t : Z * string * string, t.2 ≠ EmptyString) triples) as Hne.
    { eapply Forall_impl; [exact Hnot|]. by intros t Ht. }
    destruct (collect_controls_parents _ [] [] gui.ControlStack.init
                (parse_line_well_formed _ Hne) stack_ok_init stack_tracks_init)
      as (controls & Hp & Hn & _).
    cbn [app] in Hp. fold (gui.parse_controls s) in Hp.
    assert (Exists (λ t : Z * string * string, t.2 = EmptyString) triples → False)
      as Hno.
    { intros Hex. apply Exists_exists in Hex as (t & Hin & Ht).
      rewrite Forall_forall in Hnot. by apply (Hnot t Hin). }
    split; [rewrite Hp; split; [done|by intros ?%Hno]|].
    split.
    + unfold gui.Gui.from_string. rewrite Hp. cbn. split; [done|by intros ?%Hno].
    + rewrite Hp. intros controls' [= <-].
      rewrite <- (length_fmap gui.name), Hn, length_fmap.
      subst triples. unfold gui.parse_line. by rewrite length_fmap.
Qed.

(** ** The parser: blank and comment-only lines *)

(** The lines up to a line feed are the lines of the text that line feed
    ends; those after it are the lines of the rest. *)
Lemma splitlines_go_LF (n : nat) : ∀ (s : string) (cur rest : string),
  (String.length s ≤ n)%nat →
  Py.splitlines_go cur (s +:+ String Py.LF rest)
  = Py.splitlines_go cur (s +:+ String Py.LF EmptyString)
    ++ Py.splitlines_go EmptyString rest.
Proof.
  induction n as [|n IH]; intros s cur rest Hlen.
  - destruct s; [|cbn in Hlen; lia]. rewrite !app_empty_l. cbn. done.
  - destruct s as [|c s]; [rewrite !app_empty_l; by cbn|].
    cbn in Hlen. rewrite !app_String. cbn [Py.splitlines_go].
    destruct (Ascii.eqb c Py.LF).
    { rewrite IH by lia. done. }
    destruct (Ascii.eqb c Py.CR); [|apply IH; lia].
    destruct s as [|c' s].
    + rewrite !app_empty_l. cbn. done.
    + rewrite !app_String. destruct (Ascii.eqb c' Py.LF).
      * cbn in Hlen. rewrite IH by lia. done.
      * rewrite <- !app_String. rewrite IH by lia. done.
Qed.

(** A text without line break, followed by a line feed, is one line. *)
Lemma splitlines_go_one_line (a cur : string) :
  Py.find Py.LF a = -1 → Py.find Py.CR a = -1 →
  Py.splitlines_go cur (a +:+ String Py.LF EmptyString) = [String.rev_app cur a].
Proof.
  revert cur. induction a as [|c a IH]; intros cur HLF HCR.
  - rewrite app_empty_l. by cbn.
  - rewrite app_String. cbn [Py.splitlines_go Py.find] in *.
    destruct (Ascii.eqb c Py.LF); [done|].
    destruct (Ascii.eqb c Py.CR); [done|].
    destruct (Z.ltb_spec (Py.find Py.LF a) 0); [|lia].
    destruct (Z.ltb_spec (Py.find Py.CR a) 0); [|lia].
    rewrite IH; [done|..].
    + destruct (find_cases Py.LF a) as [->|(p & q & _ & _ & Hl)]; [done|].
      unfold Py.len in Hl. lia.
    + destruct (find_cases Py.CR a) as [->|(p & q & _ & _ & Hl)]; [done|].
      unfold Py.len in Hl. lia.
Qed.

(** X15: a line that is blank, or holds only a comment, can be put
    between two lines of a text or taken out without any effect on what
    the text parses to. *)
Theorem blank_lines_are_ignored (above blank below : string) :
  Py.find Py.LF blank = -1 →
  Py.find Py.CR blank = -1 →
  Py.strip (gui.strip_comments blank) = EmptyString →
  let longer := above +:+ String Py.LF (blank +:+ String Py.LF below) in
  let shorter := above +:+ String Py.LF below in
  gui.meaningful_lines longer = gui.meaningful_lines shorter
  ∧ gui.parse_controls longer = gui.parse_controls shorter
  ∧ gui.Gui.from_string longer = gui.Gui.from_string shorter.
Proof.
  intros HLF HCR Hblank longer shorter.
  assert (gui.meaningful_lines longer = gui.meaningful_lines shorter) as Hlines.
  { subst longer shorter. unfold gui.meaningful_lines, Py.splitlines.
    rewrite (splitlines_go_LF _ above EmptyString _ (le_n _)).
    rewrite (splitlines_go_LF _ blank EmptyString _ (le_n _)).
    rewrite (splitlines_go_LF _ above EmptyString below (le_n _)).
    rewrite (splitlines_go_one_line blank EmptyString HLF HCR).
    rewrite !fmap_app, !List.filter_app. cbn [String.rev_app fmap list_fmap List.filter].
    by rewrite Hblank. }
  split; [done|].
  unfold gui.Gui.from_string, gui.parse_controls. by rewrite Hlines.
Qed.

(** A comment line between the two lines of a small declaration. *)
Lemma blank_lines_are_ignored_witness :
  let longer := "main: columnLayout"
                  +:+ String Py.LF ("   # the buttons" +:+ String Py.LF "  go: button") in
  let shorter := "main: columnLayout" +:+ String Py.LF "  go: button" in
  gui.meaningful_lines longer = gui.meaningful_lines shorter
  ∧ gui.parse_controls longer = gui.parse_controls shorter
  ∧ gui.Gui.from_string longer = gui.Gui.from_string shorter.
Proof.
  apply (blank_lines_are_ignored "main: columnLayout" "   # the buttons"
           "  go: button"); vm_compute; reflexivity.
Defined.

(** ** Gui.create when the host accepts every command *)

(** X16: when the host accepts the creation command of every control of
    a Gui, [Gui.create] hands it these commands one after the other in
    the order of the sequence, raises nothing and prints nothing. *)
Theorem Gui_create_runs_in_order {host ref : Type}
    (mel_eval : string → host → host * option string)
    (deref : ref → gui.Control) (self : gui.Gui.t ref) (w : runtime.world host) :
  (∀ c h, c ∈ gui.Gui._controls self →
          (mel_eval (runtime.create_command (deref c)) h).2 = None) →
  runtime.Gui_create mel_eval deref self w
  = (runtime.mkWorld
       (foldl (λ h c, (mel_eval (runtime.create_command (deref c)) h).1)
          (runtime.host_state w) (gui.Gui._controls self))
       (runtime.stdout w),
     None).
Proof.
  unfold runtime.Gui_create. generalize (gui.Gui._controls self). clear self.
  intros controls. revert w.
  induction controls as [|c controls IH]; intros w Hok; cbn [runtime.create_loop foldl].
  - by destruct w.
  - unfold runtime.Control_create.
    pose proof (Hok c (runtime.host_state w) (list_elem_of_here _ _)) as Hc.
    destruct (mel_eval _ _) as [h r]. cbn in Hc. subst r.
    rewrite IH; [done|]. intros c' h' Hin. apply Hok. by right.
Qed.

(** Two controls the logging host accepts. *)
Lemma Gui_create_runs_in_order_witness :
  runtime.Gui_create samples.logging_eval id
    (gui.Gui.init gui.name [samples.window_layout; samples.last_text])
    (runtime.mkWorld [] [])
  = (runtime.mkWorld
       (foldl (λ h c, (samples.logging_eval (runtime.create_command (id c)) h).1)
          [] [samples.window_layout; samples.last_text])
       [],
     None).
Proof.
  apply (Gui_create_runs_in_order samples.logging_eval id
           (gui.Gui.init gui.name [samples.window_layout; samples.last_text])
           (runtime.mkWorld [] [])).
  intros c h Hin. cbn in Hin.
  apply elem_of_cons in Hin as [->|Hin]; [vm_compute; reflexivity|].
  apply list_elem_of_singleton in Hin as ->. vm_compute. reflexivity.
Defined.

(** ** Control.from_string: whitespace is normalised *)

Lemma split_tokens (s : string) : Forall reference.token (Py.split s).
Proof.
  induction s as [|c s IH]; [apply Forall_nil_2|]. cbn [Py.split].
  destruct (Py.isspace c) eqn:Hc; [done|].
  assert (reference.token (Py.str1 c)) as Hone.
  { split; [done|]. cbn [spec.all_chars Py.str1]. by rewrite Hc. }
  destruct s as [|c' s']; [by apply Forall_singleton|].
  destruct (Py.isspace c'); [by apply Forall_cons|].
  destruct (Py.split (String c' s')) as [|t ts]; [by apply Forall_singleton|].
  apply Forall_cons in IH as [[Hne Hall] IH]. apply Forall_cons. split; [|done].
  split; [done|]. cbn [spec.all_chars]. by rewrite Hc, Hall.
Qed.

Lemma split_one_token (t : string) : reference.token t → Py.split t = [t].
Proof.
  intros [Hne Hall]. induction t as [|c t IH]; [done|].
  cbn [spec.all_chars] in Hall. apply andb_true_iff in Hall as [Hc Hall].
  apply negb_true_iff in Hc. cbn [Py.split]. rewrite Hc.
  destruct t as [|c' t']; [done|].
  assert (Py.isspace c' = false) as Hc'.
  { cbn [spec.all_chars] in Hall. apply andb_true_iff in Hall as [H _].
    by apply negb_true_iff in H. }
  rewrite Hc'. by rewrite IH.
Qed.

Lemma split_token_then_space (t rest : string) :
  reference.token t →
  Py.split (t +:+ String Py.SPACE rest) = t :: Py.split rest.
Proof.
  intros [Hne Hall]. induction t as [|c t IH]; [done|].
  cbn [spec.all_chars] in Hall. apply andb_true_iff in Hall as [Hc Hall].
  apply negb_true_iff in Hc. rewrite app_String. cbn [Py.split]. rewrite Hc.
  destruct t as [|c' t'].
  - rewrite app_empty_l. done.
  - assert (Py.isspace c' = false) as Hc'.
    { cbn [spec.all_chars] in Hall. apply andb_true_iff in Hall as [H _].
      by apply negb_true_iff in H. }
    rewrite app_String, Hc'. rewrite <- app_String. by rewrite IH.
Qed.

Lemma join_cons (sep t t' : string) (ts : list string) :
  Py.join sep (t :: t' :: ts) = t +:+ sep +:+ Py.join sep (t' :: ts).
Proof. reflexivity. Qed.

(** Splitting the tokens joined by single spaces gives the tokens. *)
Lemma split_join (ts : list string) :
  Forall reference.token ts → Py.split (Py.join " " ts) = ts.
Proof.
  induction 1 as [|t ts Ht Hts IH]; [done|].
  destruct ts as [|t' ts]; [by apply split_one_token|].
  rewrite join_cons.
  change (" " +:+ Py.join " " (t' :: ts))
    with (String Py.SPACE (Py.join " " (t' :: ts))).
  rewrite split_token_then_space by done. by rewrite IH.
Qed.

(** X17: in every control that [Control.from_string] returns, the control
    type is a single token, and the creation flags are in normal form:
    they hold no leading, trailing or repeated blank, so that joining
    their tokens by single spaces gives them back (runs of blanks inside
    a quoted flag value are reduced to one space too). *)
Theorem Control_from_string_normalises (nm command : string)
    (parent : option string) (c : gui.Control) :
  gui.Control_from_string nm command parent = Ok c →
  Py.split (gui.control_type c) = [gui.control_type c]
  ∧ Py.join " " (Py.split (gui.creation_flags c)) = gui.creation_flags c
  ∧ Py.split (gui.control_type c +:+ " " +:+ gui.creation_flags c)
    = gui.control_type c :: Py.split (gui.creation_flags c).
Proof.
  unfold gui.Control_from_string.
  destruct (Re.search gui.parent_name_pattern command) as [m|];
    (match goal with |- context [gui.first_token ?l] =>
       match l with
       | Py.split ?x => pose proof (split_tokens x) as Htokens
       end; destruct l as [|t ts] end);
    cbn; try done; intros [= <-]; cbn.
  all: apply Forall_cons in Htokens as [Ht Hts].
  all: rewrite (split_join ts Hts).
  all: split; [by apply split_one_token|]; split; [done|].
  all: change (" " +:+ ?x) with (String Py.SPACE x).
  all: rewrite split_token_then_space by done; by rewrite split_join.
Qed.

(** A command with runs of blanks between its words. *)
Lemma Control_from_string_normalises_witness :
  let c := gui.mkControl "go" "button" "-label a b -w 10" None in
  Py.split (gui.control_type c) = [gui.control_type c]
  ∧ Py.join " " (Py.split (gui.creation_flags c)) = gui.creation_flags c
  ∧ Py.split (gui.control_type c +:+ " " +:+ gui.creation_flags c)
    = gui.control_type c :: Py.split (gui.creation_flags c).
Proof.
  apply (Control_from_string_normalises "go" "button   -label  a   b -w   10 " None).
  vm_compute. reflexivity.
Defined.

(** ** Gui.edit *)

Section gui_edit.
Context {host ref : Type}.
Context (call_command :
           string → string → gmap string gui.value → host → host * option exn).
Context (iteritems : gmap string gui.value → list (string * gui.value)).
Context (iteritems_edits :
           gmap string (gmap string gui.value)
           → list (string * gmap string gui.value)).
Context (deref : ref → gui.Control).

Local Abbreviation name_of := (λ r, gui.name (deref r)).
Local Abbreviation edit_loop :=
  (editing.edit_loop call_command iteritems deref).

Hypothesis host_accepts : ∀ type nm flags h, (call_command type nm flags h).2 = None.

Lemma Control_edit_accepted (c : gui.Control) flags (w : editing.world host) :
  flags !! "self" = None →
  (editing.Control_edit call_command iteritems c flags w).2 = None.
Proof.
  intros Hself. unfold editing.Control_edit.
  rewrite bool_decide_eq_false_2 by (rewrite Hself; by intros [? ?]).
  destruct (gui.edit _ _ _) as [flags' σ'].
  pose proof (host_accepts (gui.control_type c) (gui.name c) flags'
                (editing.host_state w)) as H.
  by destruct (call_command _ _ _ _).
Qed.

Lemma Control_edit_self (c : gui.Control) flags (w : editing.world host) :
  is_Some (flags !! "self") →
  editing.Control_edit call_command iteritems c flags w
  = (w, Some (TypeError
                "edit() got multiple values for keyword argument 'self'")).
Proof.
  intros Hself. unfold editing.Control_edit. by rewrite bool_decide_eq_true_2.
Qed.

(** An item of the batch that [Gui.edit] cannot carry out: its key names
    no control, or its flags hold the key [self]. *)
Local Abbreviation faulty cs :=
  (λ item : string * gmap string gui.value,
     item.1 ∉ (name_of <$> cs) ∨ is_Some (item.2 !! "self")).

Lemma edit_loop_sound (cs : list ref) items (w : editing.world host) :
  Forall (λ item, ¬ faulty cs item) items →
  (edit_loop (gui.Gui.init name_of cs) items w).2 = None.
Proof.
  intros Hall. revert w. induction Hall as [|[k fl] items Hk Hall IH]; intros w.
  - done.
  - cbn [editing.edit_loop]. cbn in Hk.
    assert (k ∈ (name_of <$> cs)) as Hknown.
    { destruct (decide (k ∈ (name_of <$> cs))); [done|]. exfalso. apply Hk. by left. }
    assert (fl !! "self" = None) as Hself.
    { destruct (fl !! "self") eqn:E; [|done]. exfalso. apply Hk. right. eauto. }
    destruct (getitem_init_cases name_of cs k) as (_ & _ & Hsome).
    destruct (Hsome Hknown) as [c ->].
    pose proof (Control_edit_accepted (deref c) fl w Hself) as Hacc.
    destruct (editing.Control_edit _ _ _ _ _) as [w' r]. cbn in Hacc. subst r.
    apply IH.
Qed.

Lemma edit_loop_faulty (cs : list ref) items (w : editing.world host) :
  Exists (faulty cs) items →
  ∃ item, item ∈ items
    ∧ (((item.1 ∉ (name_of <$> cs))
        ∧ (edit_loop (gui.Gui.init name_of cs) items w).2
          = Some (KeyError item.1))
       ∨ ((item.1 ∈ (name_of <$> cs)) ∧ is_Some (item.2 !! "self")
          ∧ (edit_loop (gui.Gui.init name_of cs) items w).2
            = Some (TypeError
                      "edit() got multiple values for keyword argument 'self'"))).
Proof.
  revert w. induction items as [|[k fl] items IH]; intros w Hex.
  - by apply Exists_nil in Hex.
  - cbn [editing.edit_loop].
    destruct (decide (k ∈ (name_of <$> cs))) as [Hk|Hk].
    + destruct (getitem_init_cases name_of cs k) as (_ & _ & Hsome).
      destruct (Hsome Hk) as [c ->].
      destruct (decide (is_Some (fl !! "self"))) as [Hself|Hself].
      * rewrite (Control_edit_self (deref c) fl w Hself).
        exists (k, fl). split; [apply list_elem_of_here|]. right. done.
      * assert (fl !! "self" = None) as Hnone.
        { destruct (fl !! "self") eqn:E; [|done]. exfalso. apply Hself. eauto. }
        pose proof (Control_edit_accepted (deref c) fl w Hnone) as Hacc.
        destruct (editing.Control_edit _ _ _ _ _) as [w' r]. cbn in Hacc. subst r.
        apply Exists_cons in Hex as [[Hhead|Hhead]|Hex]; [done|done|].
        destruct (IH w' Hex) as (item & Hin & Hcase).
        exists item. split; [by right|done].
    + destruct (getitem_init_cases name_of cs k) as (Hraise & _ & _).
      rewrite (proj2 Hraise Hk). exists (k, fl).
      split; [apply list_elem_of_here|]. by left.
Qed.

(** X18: with a host that accepts every call, [Gui.edit] raises nothing
    when every key of the batch names a control of the Gui and no flag
    dictionary of the batch holds the key [self]; otherwise it raises,
    whatever the order in which the batch is iterated: KeyError for a key
    of the batch that names no control, or TypeError for an entry whose
    key names a control and whose flags hold the key [self] (the edits
    iterated before that entry have been sent by then). *)
Theorem Gui_edit_unknown_control (cs : list ref)
    (per_control_edits : gmap string (gmap string gui.value))
    (w : editing.world host) :
  (∀ d, iteritems_edits d ≡ₚ map_to_list d) →
  let raised :=
    (editing.Gui_edit call_command iteritems iteritems_edits deref
       (gui.Gui.init name_of cs) per_control_edits w).2 in
  ((∀ k fl, per_control_edits !! k = Some fl →
            k ∈ (name_of <$> cs) ∧ fl !! "self" = None) →
   raised = None)
  ∧ (∀ k fl, per_control_edits !! k = Some fl →
       k ∉ (name_of <$> cs) ∨ is_Some (fl !! "self") →
       ∃ k' fl', per_control_edits !! k' = Some fl'
         ∧ (((k' ∉ (name_of <$> cs)) ∧ raised = Some (KeyError k'))
            ∨ ((k' ∈ (name_of <$> cs)) ∧ is_Some (fl' !! "self")
               ∧ raised
                 = Some (TypeError
                           "edit() got multiple values for keyword argument 'self'")))).
Proof.
  intros Hperm raised. subst raised. unfold editing.Gui_edit.
  assert (∀ item, item ∈ iteritems_edits per_control_edits →
                  per_control_edits !! item.1 = Some item.2) as Hitems.
  { intros [k fl] Hin. rewrite Hperm in Hin. by apply elem_of_map_to_list in Hin. }
  split.
  - intros Hgood. apply edit_loop_sound. apply Forall_forall.
    intros item Hin. destruct (Hgood _ _ (Hitems item Hin)) as [Hknown Hself].
    intros [Hbad|[v Hbad]]; [done|congruence].
  - intros k fl Hk Hbad.
    destruct (edit_loop_faulty cs (iteritems_edits per_control_edits) w)
      as ([k' fl'] & Hin & Hcase).
    { apply Exists_exists. exists (k, fl). split; [|done].
      rewrite Hperm. by apply elem_of_map_to_list. }
    exists k', fl'. split; [exact (Hitems _ Hin)|done].
Qed.
End gui_edit.

(** A Gui with the one control [main], and a batch for [main] and for a
    control [other] that the Gui does not hold. *)
Lemma Gui_edit_unknown_control_witness :
  let edits : gmap string (gmap string gui.value) :=
    <["main" := ∅]> (<["other" := ∅]> ∅) in
  let names := (λ r, gui.name (id r)) <$> [samples.window_layout] in
  let raised :=
    (editing.Gui_edit samples.counting_call map_to_list map_to_list id
       (gui.Gui.init (λ r, gui.name (id r)) [samples.window_layout]) edits
       (editing.mkWorld 0%nat [])).2 in
  ((∀ k fl, edits !! k = Some fl → k ∈ names ∧ fl !! "self" = None) →
   raised = None)
  ∧ (∀ k fl, edits !! k = Some fl →
       k ∉ names ∨ is_Some (fl !! "self") →
       ∃ k' fl', edits !! k' = Some fl'
         ∧ (((k' ∉ names) ∧ raised = Some (KeyError k'))
            ∨ ((k' ∈ names) ∧ is_Some (fl' !! "self")
               ∧ raised
                 = Some (TypeError
                           "edit() got multiple values for keyword argument 'self'")))).
Proof.
  intros edits names.
  apply (Gui_edit_unknown_control samples.counting_call map_to_list map_to_list id
           (λ _ _ _ _, eq_refl) [samples.window_layout] edits
           (editing.mkWorld 0%nat [])).
  reflexivity.
Defined.

(** The batch that edits [main] with the one flag [self]: the call of
    [edit] raises TypeError and the host receives nothing. *)
Lemma Gui_edit_self_keyword_raises :
  editing.Gui_edit samples.counting_call map_to_list map_to_list id
    (gui.Gui.init (λ r, gui.name (id r)) [samples.window_layout])
    {[ "main" := {[ "self" := gui.VInt 1 ]} ]}
    (editing.mkWorld 0%nat [])
  = (editing.mkWorld 0%nat [],
     Some (TypeError "edit() got multiple values for keyword argument 'self'")).
Proof. vm_compute. reflexivity. Qed.
